(** * The Raft node of tinykv/raft/raft.go as a shallow embedding

    The node is a deterministic state machine: [Step] consumes one message,
    mutates the [Raft] record and appends to its outbound [msgs].  Go's
    [uint64] is modelled as [Z] with the wrap-around written out, a Go map
    as a [gmap], a [panic]/[log.Fatal] as a crash outcome, and the shared
    [globalRand] as an explicit oracle threaded next to the node. *)

From Stdlib Require Import ZArith Lia.
From stdpp Require Import gmap list sorting strings.

Local Open Scope Z_scope.

(** ** Machine integers *)

Definition two64 : Z := 2 ^ 64.

(** A value of Go type [uint64]. *)
Definition is_u64 (z : Z) : Prop := 0 ≤ z < two64.

(** [uint64] addition and subtraction wrap around. *)
Definition add64 (a b : Z) : Z := (a + b) mod two64.
Definition sub64 (a b : Z) : Z := (a - b) mod two64.

(** Go's [int] is a signed 64-bit integer; sums wrap into [-2^63, 2^63). *)
Definition wrap_int (z : Z) : Z := (z + 2 ^ 63) mod two64 - 2 ^ 63.

(** ** Outcomes of fallible code

    A Go function either returns, panics, or dies in [log.Fatal]. *)

Inductive outcome (A : Type) : Type :=
  | Done (a : A)
  | Panic (why : string)
  | Fatal (why : string).
Arguments Done {A} a.
Arguments Panic {A} why.
Arguments Fatal {A} why.

Definition outcome_bind {A B} (f : A → outcome B) (o : outcome A) : outcome B :=
  match o with
  | Done a => f a
  | Panic s => Panic s
  | Fatal s => Fatal s
  end.

#[global] Instance outcome_ret : MRet outcome := λ A a, Done a.
#[global] Instance outcome_mbind : MBind outcome := λ A B f o, outcome_bind f o.

(** Errors returned as Go [error] values. *)
Inductive error : Type :=
  | ErrProposalDropped
  | ErrCompacted
  | ErrUnavailable
  | ErrSnapshotTemporarilyUnavailable
  | ErrOther (what : string).

(** None is a placeholder node ID used when there is no leader. *)
Definition None_id : Z := 0.

(** ** Protocol buffers (package eraftpb)

    The generated eraftpb package is not among the sources.  The records
    below carry the fields raft.go reads and writes, with the data model of
    §3 and the message kinds of §6 of the spec.  Pointer-typed fields that
    raft.go dereferences ([Snapshot], [Metadata], [ConfState]) are options,
    a nil dereference being a panic. *)

Module pb.

(** Modelled from the spec: eraftpb.EntryType is missing; §3 has the entry
    kinds Normal and ConfChange. *)
Inductive EntryType := EntryNormal | EntryConfChange.

(** Modelled from the spec: eraftpb.MessageType is missing; the kinds are
    those of §6, under the names raft.go uses. *)
Inductive MessageType :=
  | MsgHup | MsgBeat | MsgPropose | MsgAppend | MsgAppendResponse
  | MsgRequestVote | MsgRequestVoteResponse | MsgSnapshot
  | MsgHeartbeat | MsgHeartbeatResponse | MsgTransferLeader | MsgTimeoutNow.

Module Entry.
(** Modelled from the spec: eraftpb.Entry is missing; §3 gives an entry a
    term, an index, a kind and an opaque payload. *)
Record t := mk {
  EntryType : EntryType;
  Term : Z;
  Index : Z;
  Data : list Byte.byte
}.
End Entry.

Module HardState.
(** Modelled from the spec: eraftpb.HardState is missing; §3 gives it term,
    vote and commit. *)
Record t := mk { Term : Z; Vote : Z; Commit : Z }.
End HardState.

Module ConfState.
(** Modelled from the spec: eraftpb.ConfState is missing; §3 gives it the
    nodes. *)
Record t := mk { Nodes : list Z }.
End ConfState.

Module SnapshotMetadata.
(** Modelled from the spec: eraftpb.SnapshotMetadata is missing; §3 gives it
    index, term and conf state. *)
Record t := mk { ConfState : option ConfState.t; Index : Z; Term : Z }.
End SnapshotMetadata.

Module Snapshot.
(** Modelled from the spec: eraftpb.Snapshot is missing; §3 gives it data
    and metadata (a pointer, as peer.go notes). *)
Record t := mk { Data : list Byte.byte; Metadata : option SnapshotMetadata.t }.
End Snapshot.

Module Message.
(** Modelled from the spec: eraftpb.Message is missing; the fields are those
    of §6 under the names raft.go uses. *)
Record t := mk {
  MsgType : MessageType;
  To : Z;
  From : Z;
  Term : Z;
  LogTerm : Z;
  Index : Z;
  Entries : list Entry.t;
  Commit : Z;
  Snapshot : option Snapshot.t;
  Reject : bool;
  RejectHint : Z
}.

(** Modelled from the spec: the zero value of the missing eraftpb.Message,
    carrying only a kind. *)
Definition zero (ty : MessageType) : t :=
  mk ty 0 0 0 0 0 [] 0 None false 0.
End Message.

#[global] Instance EntryType_eq_dec : EqDecision EntryType.
Proof. solve_decision. Defined.
#[global] Instance MessageType_eq_dec : EqDecision MessageType.
Proof. solve_decision. Defined.

End pb.

(** ** Progress: the leader's view of one follower *)

Module Progress.

Record t := mk { Match : Z; Next : Z }.

(** Modelled from the spec: [min] on uint64 lives in util.go, which is not
    among the sources; the spec writes it as min(rejected, last_hint + 1). *)
Definition min (a b : Z) : Z := if a <? b then a else b.

(** maybeUpdate returns false if the given n index comes from an outdated
    message.  Otherwise it updates the progress and returns true. *)
Definition maybeUpdate (pr : t) (n : Z) : bool * t :=
  let updated := Match pr <? n in
  let pr1 := if updated then mk n (Next pr) else pr in
  let pr2 := if Next pr1 <? add64 n 1 then mk (Match pr1) (add64 n 1) else pr1 in
  (updated, pr2).

(** maybeDecrTo returns false if the given to index comes from an out of
    order message.  Otherwise it decreases the progress next index to
    min(rejected, last) and returns true. *)
Definition maybeDecrTo (pr : t) (rejected last : Z) : bool * t :=
  if rejected <=? Match pr then (false, pr)
  else
    let next := min rejected (add64 last 1) in
    let next := if next <? 1 then 1 else next in
    (true, mk (Match pr) next).

(** Both fields hold uint64 values. *)
Definition wf (pr : t) : Prop := is_u64 (Match pr) ∧ is_u64 (Next pr).


End Progress.

(** Go functions returning [(value, error)]. *)
Inductive result (A : Type) : Type :=
  | Ok (a : A)
  | Err (e : error).
Arguments Ok {A} a.
Arguments Err {A} e.

Definition len {A} (l : list A) : Z := Z.of_nat (length l).

(** ** Storage *)

Module Storage.

(** Modelled from the spec: the Storage interface (storage.go) is not among
    the sources.  The core only pulls from it (§6), so a storage is the
    answers it gives: the initial hard and conf state, the durable log
    prefix above its snapshot boundary, and the snapshot on demand, which
    may be SnapshotTemporarilyUnavailable. *)
Record t := mk {
  InitialState : result (pb.HardState.t * pb.ConfState.t);
  snapIndex : Z;
  snapTerm : Z;
  ents : list pb.Entry.t;
  Snapshot : result pb.Snapshot.t
}.

(** Modelled from the spec: first_index() of the missing Storage, one past
    the snapshot boundary. *)
Definition FirstIndex (s : t) : Z := add64 (snapIndex s) 1.

(** Modelled from the spec: last_index() of the missing Storage. *)
Definition LastIndex (s : t) : Z := add64 (snapIndex s) (len (ents s)).

End Storage.

(** ** RaftLog

    log.go is not among the sources.  Each operation below follows its
    contract in §4.1 of the spec; where the contract is silent the choice
    made is said in the comment. *)

Module RaftLog.

(** Modelled from the spec: the RaftLog struct of the missing log.go.  §4.1
    presents the log as one logical sequence of entries above a snapshot
    boundary (first_index − 1, kept here as [offset] with its term), with
    the offsets applied, committed, stabled and a pending_snapshot. *)
Record t := mk {
  storage : Storage.t;
  offset : Z;
  offsetTerm : Z;
  entries : list pb.Entry.t;
  committed : Z;
  applied : Z;
  stabled : Z;
  pending_snapshot : option pb.Snapshot.t
}.

(** Modelled from the spec: assignment to the committed field. *)
Definition set_committed (l : t) (c : Z) : t :=
  mk (storage l) (offset l) (offsetTerm l) (entries l) c (applied l)
     (stabled l) (pending_snapshot l).

(** Modelled from the spec: assignment to the applied field. *)
Definition set_applied (l : t) (a : Z) : t :=
  mk (storage l) (offset l) (offsetTerm l) (entries l) (committed l) a
     (stabled l) (pending_snapshot l).

(** Modelled from the spec: newLog of the missing log.go.  The log starts
    out as the durable prefix, nothing committed or applied above the
    snapshot boundary, everything in it stable. *)
Definition newLog (s : Storage.t) : t :=
  mk s (Storage.snapIndex s) (Storage.snapTerm s) (Storage.ents s)
     (Storage.snapIndex s) (Storage.snapIndex s) (Storage.LastIndex s) None.

(** Modelled from the spec: first_index, one past the snapshot boundary. *)
Definition firstIndex (l : t) : Z := add64 (offset l) 1.

(** Modelled from the spec: last_index(), the last index present; with an
    empty log, the snapshot boundary. *)
Definition LastIndex (l : t) : Z := add64 (offset l) (len (entries l)).

(** Modelled from the spec: term(i), Compacted if i < first_index − 1,
    Unavailable if i > last_index. *)
Definition Term (l : t) (i : Z) : result Z :=
  if i <? offset l then Err ErrCompacted
  else if LastIndex l <? i then Err ErrUnavailable
  else if i =? offset l then Ok (offsetTerm l)
  else match entries l !! Z.to_nat (i - offset l - 1) with
       | Some e => Ok (pb.Entry.Term e)
       | None => Err ErrUnavailable
       end.

(** Modelled from the spec: zeroTermOnRangeErr of the missing log.go, used
    by the log lines; a range error reads as term 0. *)
Definition zeroTermOnRangeErr (t : result Z) : Z :=
  match t with Ok t => t | Err _ => 0 end.

(** Modelled from the spec: last_term(), the term of the last entry; with
    an empty log, that of the snapshot boundary. *)
Definition lastTerm (l : t) : Z := zeroTermOnRangeErr (Term l (LastIndex l)).

(** Modelled from the spec: entries(lo), the slice [lo, last_index];
    Compacted if lo < first_index. *)
Definition Entries (l : t) (lo : Z) : result (list pb.Entry.t) :=
  if lo <? firstIndex l then Err ErrCompacted
  else Ok (drop (Z.to_nat (lo - firstIndex l)) (entries l)).

(** Modelled from the spec: slice(lo, hi) of the missing log.go, the
    entries with lo ≤ index < hi, under the error taxonomy of entries and
    term; an inverted range is an error as well. *)
Definition slice (l : t) (lo hi : Z) : result (list pb.Entry.t) :=
  if hi <? lo then Err (ErrOther "invalid slice")
  else if lo <? firstIndex l then Err ErrCompacted
  else if LastIndex l + 1 <? hi then Err ErrUnavailable
  else Ok (take (Z.to_nat (hi - lo))
             (drop (Z.to_nat (lo - firstIndex l)) (entries l))).

(** Modelled from the spec: match_term(i, t), true iff term(i) == t, errors
    treated as false. *)
Definition matchTerm (l : t) (i term : Z) : bool :=
  match Term l i with
  | Ok t => t =? term
  | Err _ => false
  end.

(** Modelled from the spec: is_up_to_date(last_idx, last_t), true iff
    last_t > last_term(), or they are equal and last_idx ≥ last_index(). *)
Definition isUpToDate (l : t) (lasti term : Z) : bool :=
  (lastTerm l <? term) || ((term =? lastTerm l) && (LastIndex l <=? lasti)).

(** Modelled from the spec: commit_to(i), monotonic; going backward is
    fatal. *)
Definition commitTo (l : t) (tocommit : Z) : outcome t :=
  if tocommit <? committed l then Fatal "commit index moves backward"
  else Done (set_committed l tocommit).

(** Modelled from the spec: applied_to(i), monotonic; going backward is
    fatal. *)
Definition appliedTo (l : t) (i : Z) : outcome t :=
  if i <? applied l then Fatal "applied index moves backward"
  else Done (set_applied l i).

(** Modelled from the spec: maybe_commit(max_idx, term), the deciding
    function of the commit rule; advance committed to max_idx only if
    max_idx > committed and term(max_idx) == term (an error of term() is
    not a term, so it never equals one).  Returns whether committed
    moved. *)
Definition maybeCommit (l : t) (maxIndex term : Z) : bool * t :=
  if (committed l <? maxIndex) && matchTerm l maxIndex term
  then (true, set_committed l maxIndex)
  else (false, l).

(** Modelled from the spec: the truncation policy of maybe_append.  The
    first incoming entry whose term differs from the term the log has at
    its index; 0 when there is none. *)
Fixpoint findConflict (l : t) (ents : list pb.Entry.t) : Z :=
  match ents with
  | [] => 0
  | ne :: rest =>
      if matchTerm l (pb.Entry.Index ne) (pb.Entry.Term ne)
      then findConflict l rest
      else pb.Entry.Index ne
  end.

(** Modelled from the spec: the append of maybe_append.  The suffix from
    the first entry of [es] on is dropped, then [es] is appended;
    appending an entry whose index is not last_index + 1 after the
    truncation is an invariant violation (§7). *)
Definition truncateAndAppend (l : t) (es : list pb.Entry.t) : outcome t :=
  match es with
  | [] => Done l
  | e :: _ =>
      let after := pb.Entry.Index e in
      let keep := take (Z.to_nat (after - firstIndex l)) (entries l) in
      if after =? add64 (add64 (offset l) (len keep)) 1
      then Done (mk (storage l) (offset l) (offsetTerm l) (keep ++ es)
                    (committed l) (applied l)
                    (Z.min (stabled l) (after - 1)) (pending_snapshot l))
      else Fatal "appended entry does not follow the last index"
  end.

(** Modelled from the spec: maybe_append(prev_idx, prev_term,
    leader_commit, entries); returns the new last index (prev_idx plus the
    number of entries) on success.  Truncating at or below committed is
    fatal.  Commit only advances. *)
Definition maybeAppend (l : t) (index logTerm leaderCommit : Z)
    (ents : list pb.Entry.t) : outcome (option Z * t) :=
  if matchTerm l index logTerm then
    let lastnewi := add64 index (len ents) in
    let ci := findConflict l ents in
    l1 ← (if ci =? 0 then Done l
          else if ci <=? committed l
          then Fatal "entry conflicts with a committed entry"
          else truncateAndAppend l (drop (Z.to_nat (ci - index - 1)) ents));
    let tocommit := Z.min leaderCommit lastnewi in
    mret (Some lastnewi,
          if committed l1 <? tocommit then set_committed l1 tocommit else l1)
  else Done (None, l).

(** Modelled from the spec: restore(snapshot); discard all entries, set
    pending_snapshot, and move
    the offsets to the snapshot index (the invariant chain
    first_index − 1 ≤ applied ≤ committed ≤ last_index then forces
    applied, and stabled ≤ last_index caps stabled). *)
Definition restore (l : t) (s : pb.Snapshot.t) : outcome t :=
  match pb.Snapshot.Metadata s with
  | None => Panic "nil pointer dereference"
  | Some md =>
      let i := pb.SnapshotMetadata.Index md in
      Done (mk (storage l) i (pb.SnapshotMetadata.Term md) [] i i i (Some s))
  end.

(** Modelled from the spec: snapshot() of the missing log.go; the pending
    snapshot if any, else the storage's. *)
Definition snapshot (l : t) : result pb.Snapshot.t :=
  match pending_snapshot l with
  | Some s => Ok s
  | None => Storage.Snapshot (storage l)
  end.

End RaftLog.

(** ** The Raft record *)

(** StateType represents the role of a node in a cluster. *)
Inductive StateType := StateFollower | StateCandidate | StateLeader.

#[global] Instance StateType_eq_dec : EqDecision StateType.
Proof. solve_decision. Defined.

Record Raft := mkRaft {
  id : Z;
  Term : Z;
  Vote : Z;
  RaftLog : RaftLog.t;
  Prs : gmap Z Progress.t;
  State : StateType;
  votes : gmap Z bool;
  msgs : list pb.Message.t;
  Lead : Z;
  heartbeatTimeout : Z;
  electionTimeout : Z;
  randomizedElectionTimeout : Z;
  leadTransferee : Z;
  PendingConfIndex : Z;
  electionElapsed : Z;
  heartbeatElapsed : Z
}.

Definition set_Term (t : Z) (r : Raft) : Raft :=
  mkRaft (id r) t (Vote r) (RaftLog r) (Prs r) (State r) (votes r) (msgs r)
    (Lead r) (heartbeatTimeout r) (electionTimeout r)
    (randomizedElectionTimeout r) (leadTransferee r) (PendingConfIndex r)
    (electionElapsed r) (heartbeatElapsed r).
Definition set_Vote (v : Z) (r : Raft) : Raft :=
  mkRaft (id r) (Term r) v (RaftLog r) (Prs r) (State r) (votes r) (msgs r)
    (Lead r) (heartbeatTimeout r) (electionTimeout r)
    (randomizedElectionTimeout r) (leadTransferee r) (PendingConfIndex r)
    (electionElapsed r) (heartbeatElapsed r).
Definition set_RaftLog (l : RaftLog.t) (r : Raft) : Raft :=
  mkRaft (id r) (Term r) (Vote r) l (Prs r) (State r) (votes r) (msgs r)
    (Lead r) (heartbeatTimeout r) (electionTimeout r)
    (randomizedElectionTimeout r) (leadTransferee r) (PendingConfIndex r)
    (electionElapsed r) (heartbeatElapsed r).
Definition set_Prs (p : gmap Z Progress.t) (r : Raft) : Raft :=
  mkRaft (id r) (Term r) (Vote r) (RaftLog r) p (State r) (votes r) (msgs r)
    (Lead r) (heartbeatTimeout r) (electionTimeout r)
    (randomizedElectionTimeout r) (leadTransferee r) (PendingConfIndex r)
    (electionElapsed r) (heartbeatElapsed r).
Definition set_State (s : StateType) (r : Raft) : Raft :=
  mkRaft (id r) (Term r) (Vote r) (RaftLog r) (Prs r) s (votes r) (msgs r)
    (Lead r) (heartbeatTimeout r) (electionTimeout r)
    (randomizedElectionTimeout r) (leadTransferee r) (PendingConfIndex r)
    (electionElapsed r) (heartbeatElapsed r).
Definition set_votes (v : gmap Z bool) (r : Raft) : Raft :=
  mkRaft (id r) (Term r) (Vote r) (RaftLog r) (Prs r) (State r) v (msgs r)
    (Lead r) (heartbeatTimeout r) (electionTimeout r)
    (randomizedElectionTimeout r) (leadTransferee r) (PendingConfIndex r)
    (electionElapsed r) (heartbeatElapsed r).
Definition set_msgs (ms : list pb.Message.t) (r : Raft) : Raft :=
  mkRaft (id r) (Term r) (Vote r) (RaftLog r) (Prs r) (State r) (votes r) ms
    (Lead r) (heartbeatTimeout r) (electionTimeout r)
    (randomizedElectionTimeout r) (leadTransferee r) (PendingConfIndex r)
    (electionElapsed r) (heartbeatElapsed r).
Definition set_Lead (l : Z) (r : Raft) : Raft :=
  mkRaft (id r) (Term r) (Vote r) (RaftLog r) (Prs r) (State r) (votes r)
    (msgs r) l (heartbeatTimeout r) (electionTimeout r)
    (randomizedElectionTimeout r) (leadTransferee r) (PendingConfIndex r)
    (electionElapsed r) (heartbeatElapsed r).
Definition set_randomizedElectionTimeout (t : Z) (r : Raft) : Raft :=
  mkRaft (id r) (Term r) (Vote r) (RaftLog r) (Prs r) (State r) (votes r)
    (msgs r) (Lead r) (heartbeatTimeout r) (electionTimeout r) t
    (leadTransferee r) (PendingConfIndex r) (electionElapsed r)
    (heartbeatElapsed r).
Definition set_leadTransferee (t : Z) (r : Raft) : Raft :=
  mkRaft (id r) (Term r) (Vote r) (RaftLog r) (Prs r) (State r) (votes r)
    (msgs r) (Lead r) (heartbeatTimeout r) (electionTimeout r)
    (randomizedElectionTimeout r) t (PendingConfIndex r) (electionElapsed r)
    (heartbeatElapsed r).
Definition set_PendingConfIndex (i : Z) (r : Raft) : Raft :=
  mkRaft (id r) (Term r) (Vote r) (RaftLog r) (Prs r) (State r) (votes r)
    (msgs r) (Lead r) (heartbeatTimeout r) (electionTimeout r)
    (randomizedElectionTimeout r) (leadTransferee r) i (electionElapsed r)
    (heartbeatElapsed r).
Definition set_electionElapsed (e : Z) (r : Raft) : Raft :=
  mkRaft (id r) (Term r) (Vote r) (RaftLog r) (Prs r) (State r) (votes r)
    (msgs r) (Lead r) (heartbeatTimeout r) (electionTimeout r)
    (randomizedElectionTimeout r) (leadTransferee r) (PendingConfIndex r) e
    (heartbeatElapsed r).
Definition set_heartbeatElapsed (e : Z) (r : Raft) : Raft :=
  mkRaft (id r) (Term r) (Vote r) (RaftLog r) (Prs r) (State r) (votes r)
    (msgs r) (Lead r) (heartbeatTimeout r) (electionTimeout r)
    (randomizedElectionTimeout r) (leadTransferee r) (PendingConfIndex r)
    (electionElapsed r) e.

(** ** The shared random source

    [globalRand] is one process-wide generator.  Its future draws are an
    oracle [draws]; [drawn] counts how many were consumed.  [Intn n] panics
    for n ≤ 0 (math/rand) and otherwise returns a value in [0, n). *)

Record lockedRand := mkRand { draws : nat → Z; drawn : nat }.

Definition Intn (g : lockedRand) (n : Z) : outcome (Z * lockedRand) :=
  if n <=? 0 then Panic "invalid argument to Intn"
  else Done (draws g (drawn g) mod n, mkRand (draws g) (S (drawn g))).

(** ** The state monad of the node

    A method on [*Raft] reads and writes the node and the random source and
    may crash. *)

Record World := mkWorld { node : Raft; globalRand : lockedRand }.

Definition M (A : Type) : Type := World → outcome (A * World).

#[global] Instance M_ret : MRet M := λ A a w, Done (a, w).
#[global] Instance M_bind : MBind M := λ A B f c w,
  match c w with
  | Done (a, w') => f a w'
  | Panic s => Panic s
  | Fatal s => Fatal s
  end.

Definition get : M Raft := λ w, Done (node w, w).
Definition modify (f : Raft → Raft) : M unit :=
  λ w, Done (tt, mkWorld (f (node w)) (globalRand w)).
Definition panic {A} (why : string) : M A := λ _, Panic why.
Definition fatal {A} (why : string) : M A := λ _, Fatal why.
Definition lift {A} (o : outcome A) : M A :=
  λ w, match o with
       | Done a => Done (a, w)
       | Panic s => Panic s
       | Fatal s => Fatal s
       end.
Definition draw (n : Z) : M Z :=
  λ w, match Intn (globalRand w) n with
       | Done (v, g) => Done (v, mkWorld (node w) g)
       | Panic s => Panic s
       | Fatal s => Fatal s
       end.

(** ** Config and construction *)

Record Config := mkConfig {
  ID : Z;
  peers : list Z;
  ElectionTick : Z;
  HeartbeatTick : Z;
  Storage : option Storage.t;
  Applied : Z
}.

Definition validate (c : Config) : option string :=
  if ID c =? None_id then Some "cannot use none as id"
  else if HeartbeatTick c <=? 0 then Some "heartbeat tick must be greater than 0"
  else if ElectionTick c <=? HeartbeatTick c
  then Some "election tick must be greater than heartbeat tick"
  else match Storage c with
       | None => Some "storage cannot be nil"
       | Some _ => None
       end.

(** Modelled from the spec: IsEmptyHardState lives in util.go, which is not
    among the sources; a hard state is empty when it is the zero value. *)
Definition IsEmptyHardState (hs : pb.HardState.t) : bool :=
  (pb.HardState.Term hs =? 0) && (pb.HardState.Vote hs =? 0)
  && (pb.HardState.Commit hs =? 0).

(** Modelled from the spec: IsEmptySnap lives in util.go, which is not among
    the sources; a snapshot without metadata or at index 0 is empty. *)
Definition IsEmptySnap (s : pb.Snapshot.t) : bool :=
  match pb.Snapshot.Metadata s with
  | None => true
  | Some md => pb.SnapshotMetadata.Index md =? 0
  end.

(** ** Methods of the node *)

Definition quorum (r : Raft) : Z := Z.of_nat (size (Prs r)) / 2 + 1.

Definition with_From (f : Z) (m : pb.Message.t) : pb.Message.t :=
  pb.Message.mk (pb.Message.MsgType m) (pb.Message.To m) f (pb.Message.Term m)
    (pb.Message.LogTerm m) (pb.Message.Index m) (pb.Message.Entries m)
    (pb.Message.Commit m) (pb.Message.Snapshot m) (pb.Message.Reject m)
    (pb.Message.RejectHint m).
Definition with_To (t : Z) (m : pb.Message.t) : pb.Message.t :=
  pb.Message.mk (pb.Message.MsgType m) t (pb.Message.From m) (pb.Message.Term m)
    (pb.Message.LogTerm m) (pb.Message.Index m) (pb.Message.Entries m)
    (pb.Message.Commit m) (pb.Message.Snapshot m) (pb.Message.Reject m)
    (pb.Message.RejectHint m).
Definition with_Term (t : Z) (m : pb.Message.t) : pb.Message.t :=
  pb.Message.mk (pb.Message.MsgType m) (pb.Message.To m) (pb.Message.From m) t
    (pb.Message.LogTerm m) (pb.Message.Index m) (pb.Message.Entries m)
    (pb.Message.Commit m) (pb.Message.Snapshot m) (pb.Message.Reject m)
    (pb.Message.RejectHint m).

Definition is_vote_msg (ty : pb.MessageType) : bool :=
  match ty with
  | pb.MsgRequestVote | pb.MsgRequestVoteResponse => true
  | _ => false
  end.

(** send persists state to stable storage and then sends to its mailbox. *)
Definition send (m : pb.Message.t) : M unit :=
  r ← get;
  let m := with_From (id r) m in
  m ← (if is_vote_msg (pb.Message.MsgType m) then
         if pb.Message.Term m =? 0
         then panic "term should be set when sending"
         else mret m
       else
         if negb (pb.Message.Term m =? 0)
         then panic "term should not be set when sending"
         else if bool_decide (pb.Message.MsgType m ≠ pb.MsgPropose)
         then mret (with_Term (Term r) m)
         else mret m);
  modify (λ r, set_msgs (msgs r ++ [m]) r).

Definition getProgress (r : Raft) (id : Z) : option Progress.t := Prs r !! id.

Definition setProgress (id match_ next : Z) (r : Raft) : Raft :=
  set_Prs (<[id := Progress.mk match_ next]> (Prs r)) r.

Definition abortLeaderTransfer (r : Raft) : Raft := set_leadTransferee None_id r.

Definition resetRandomizedElectionTimeout : M unit :=
  r ← get;
  v ← draw (electionTimeout r);
  modify (set_randomizedElectionTimeout (wrap_int (electionTimeout r + v))).

(** The progress every peer restarts from in [reset]. *)
Definition reset_progress (self li : Z) (p : Z) : Progress.t :=
  Progress.mk (if p =? self then li else 0) (add64 li 1).

Definition reset (term : Z) : M unit :=
  r ← get;
  (if negb (Term r =? term)
   then modify (λ r, set_Vote None_id (set_Term term r))
   else mret tt);;
  modify (set_Lead None_id);;
  modify (set_electionElapsed 0);;
  modify (set_heartbeatElapsed 0);;
  resetRandomizedElectionTimeout;;
  modify abortLeaderTransfer;;
  modify (set_votes ∅);;
  modify (λ r, set_Prs
     (map_imap (λ p _, Some (reset_progress (id r)
                                 (RaftLog.LastIndex (RaftLog r)) p)) (Prs r)) r);;
  modify (set_PendingConfIndex 0).

(** becomeFollower transform this peer's state to Follower *)
Definition becomeFollower (term lead : Z) : M unit :=
  reset term;;
  modify (set_Lead lead);;
  modify (set_State StateFollower).

(** Modelled from the spec: uint64Slice and its ordering live in util.go,
    which is not among the sources; sort.Sort puts the match values in
    ascending order. *)
Definition sort_uint64 (l : list Z) : list Z := merge_sort Z.le l.

(** The match column of the progress map, sorted. *)
Definition matchIndex (r : Raft) : list Z :=
  sort_uint64 (Progress.Match <$> (map_to_list (Prs r)).*2).

(** Indexing a slice with a Go [int]: out of range panics. *)
Definition index_int {A} (l : list A) (i : Z) : outcome A :=
  if i <? 0 then Panic "index out of range"
  else match l !! Z.to_nat i with
       | Some a => Done a
       | None => Panic "index out of range"
       end.

(** maybeCommit attempts to advance the commit index. Returns true if the
    commit index changed (in which case the caller should call
    r.bcastAppend). *)
Definition maybeCommit : M bool :=
  r ← get;
  let mi := matchIndex r in
  mci ← lift (index_int mi (len mi - quorum r));
  let '(changed, l) := RaftLog.maybeCommit (RaftLog r) mci (Term r) in
  modify (set_RaftLog l);;
  mret changed.

(** appendEntry stops at the scaffold's panic right after reading the last
    index; the append, the self progress update and maybeCommit after it are
    never reached. *)
Definition appendEntry (es : list pb.Entry.t) : M unit :=
  panic "Raft: Replication_Step1:::Your code here.".

(** sendAppend sends an append RPC with new entries (if any) and the
    current commit index to the given peer. Returns true if a message was
    sent. *)
Definition sendAppend (to : Z) : M bool :=
  r ← get;
  match getProgress r to with
  | None => panic "nil pointer dereference"
  | Some pr =>
      let errt := RaftLog.Term (RaftLog r) (sub64 (Progress.Next pr) 1) in
      let erre := RaftLog.Entries (RaftLog r) (Progress.Next pr) in
      match errt, erre with
      | Ok _, Ok _ => panic "Raft: Replication_Step2:::Your code here."
      | _, _ =>
          match RaftLog.snapshot (RaftLog r) with
          | Err ErrSnapshotTemporarilyUnavailable => mret false
          | Err _ => panic "snapshot failed"
          | Ok snapshot =>
              if IsEmptySnap snapshot then panic "need non-empty snapshot"
              else
                send (pb.Message.mk pb.MsgSnapshot to 0 0 0 0 [] 0
                        (Some snapshot) false 0);;
                mret true
          end
      end
  end.

(** sendHeartbeat is the scaffold's panic. *)
Definition sendHeartbeat (to : Z) : M unit :=
  panic "Raft: Leader_Election_Step7:::Your code here.".

(** forEachProgress ranges over the map; Go leaves the order unspecified,
    the model takes the order of [map_to_list]. *)
Definition forEachProgress (f : Z → Progress.t → M unit) : M unit :=
  r ← get;
  foldr (λ '(p, pr) k, f p pr;; k) (mret tt) (map_to_list (Prs r)).

(** bcastAppend sends RPC, with entries to all peers that are not up-to-date
    according to the progress recorded in r.Prs. *)
Definition bcastAppend : M unit :=
  r ← get;
  forEachProgress (λ p _,
    if p =? id r then mret tt else (sendAppend p;; mret tt)).

(** bcastHeartbeat sends RPC, without entries to all the peers. *)
Definition bcastHeartbeat : M unit :=
  r ← get;
  forEachProgress (λ p _,
    if p =? id r then mret tt else sendHeartbeat p).

(** becomeCandidate is the scaffold's panic. *)
Definition becomeCandidate : M unit :=
  panic "Raft: Leader_Election_Step3:::Your code here.".

(** becomeLeader transform this peer's state to leader *)
Definition becomeLeader : M unit :=
  r ← get;
  reset (Term r);;
  modify (λ r, set_Lead (id r) r);;
  modify (set_State StateLeader);;
  modify (λ r, set_PendingConfIndex (RaftLog.LastIndex (RaftLog r)) r);;
  appendEntry [pb.Entry.mk pb.EntryNormal 0 0 []].

Definition poll (p : Z) (t : pb.MessageType) (v : bool) : M Z :=
  modify (λ r, match votes r !! p with
               | Some _ => r
               | None => set_votes (<[p := v]> (votes r)) r
               end);;
  r ← get;
  mret (len (filter (λ kv, kv.2 = true) (map_to_list (votes r)))).

Definition campaign : M unit :=
  becomeCandidate;;
  r ← get;
  let term := Term r in
  granted ← poll (id r) pb.MsgRequestVoteResponse true;
  if quorum r =? granted
  then panic "Raft: Leader_Election_Step4:::Your code here."
  else
    forEachProgress (λ p _,
      if p =? id r then mret tt
      else
        r ← get;
        send (pb.Message.mk pb.MsgRequestVote p 0 term
                (RaftLog.lastTerm (RaftLog r)) (RaftLog.LastIndex (RaftLog r))
                [] 0 None false 0)).

Definition sendTimeoutNow (to : Z) : M unit :=
  send (with_To to (pb.Message.zero pb.MsgTimeoutNow)).

(** promotable indicates whether state machine can be promoted to Leader,
    which is true when its own id is in progress list. *)
Definition promotable (r : Raft) : bool := bool_decide (is_Some (Prs r !! id r)).

Definition numOfPendingConf (ents : list pb.Entry.t) : Z :=
  len (filter (λ e, pb.Entry.EntryType e = pb.EntryConfChange) ents).

(** The reply every handler below sends: an AppendResponse to [to]. *)
Definition appendResponse (to index : Z) (reject : bool) (hint : Z) : pb.Message.t :=
  pb.Message.mk pb.MsgAppendResponse to 0 0 0 index [] 0 None reject hint.

(** handleAppendEntries handle AppendEntries RPC request *)
Definition handleAppendEntries (m : pb.Message.t) : M unit :=
  r ← get;
  if pb.Message.Index m <? RaftLog.committed (RaftLog r) then
    send (appendResponse (pb.Message.From m) (RaftLog.committed (RaftLog r)) false 0)
  else
    res ← lift (RaftLog.maybeAppend (RaftLog r) (pb.Message.Index m)
                  (pb.Message.LogTerm m) (pb.Message.Commit m)
                  (pb.Message.Entries m));
    modify (set_RaftLog res.2);;
    match res.1 with
    | Some mlastIndex =>
        send (appendResponse (pb.Message.From m) mlastIndex false 0)
    | None =>
        r ← get;
        send (appendResponse (pb.Message.From m) (pb.Message.Index m) true
                (RaftLog.LastIndex (RaftLog r)))
    end.

(** handleHeartbeat handle Heartbeat RPC request *)
Definition handleHeartbeat (m : pb.Message.t) : M unit :=
  r ← get;
  l ← lift (RaftLog.commitTo (RaftLog r) (pb.Message.Commit m));
  modify (set_RaftLog l);;
  send (with_To (pb.Message.From m) (pb.Message.zero pb.MsgHeartbeatResponse)).

Definition restoreNode (nodes : list Z) (r : Raft) : Raft :=
  foldl (λ r n,
    let next := add64 (RaftLog.LastIndex (RaftLog r)) 1 in
    let match_ := if n =? id r then sub64 next 1 else 0 in
    setProgress n match_ next r) r nodes.

(** restore recovers the state machine from a snapshot. It restores the log
    and the configuration of state machine. *)
Definition restore (s : pb.Snapshot.t) : M bool :=
  match pb.Snapshot.Metadata s with
  | None => panic "nil pointer dereference"
  | Some md =>
      r ← get;
      if pb.SnapshotMetadata.Index md <=? RaftLog.committed (RaftLog r) then
        mret false
      else if RaftLog.matchTerm (RaftLog r) (pb.SnapshotMetadata.Index md)
                (pb.SnapshotMetadata.Term md) then
        l ← lift (RaftLog.commitTo (RaftLog r) (pb.SnapshotMetadata.Index md));
        modify (set_RaftLog l);;
        mret false
      else
        l ← lift (RaftLog.restore (RaftLog r) s);
        modify (set_RaftLog l);;
        modify (set_Prs ∅);;
        match pb.SnapshotMetadata.ConfState md with
        | None => panic "nil pointer dereference"
        | Some cs =>
            modify (restoreNode (pb.ConfState.Nodes cs));;
            mret true
        end
  end.

(** handleSnapshot handle Snapshot RPC request *)
Definition handleSnapshot (m : pb.Message.t) : M unit :=
  match pb.Message.Snapshot m with
  | None => panic "nil pointer dereference"
  | Some s =>
      match pb.Snapshot.Metadata s with
      | None => panic "nil pointer dereference"
      | Some _ =>
          restored ← restore s;
          r ← get;
          if restored : bool then
            send (appendResponse (pb.Message.From m)
                    (RaftLog.LastIndex (RaftLog r)) false 0)
          else
            send (appendResponse (pb.Message.From m)
                    (RaftLog.committed (RaftLog r)) false 0)
      end
  end.

(** addNode add a new node to raft group *)
Definition addNode (p : Z) (r : Raft) : Raft :=
  match getProgress r p with
  | None => setProgress p 0 (add64 (RaftLog.LastIndex (RaftLog r)) 1) r
  | Some _ => r
  end.

(** removeNode remove a node from raft group *)
Definition removeNode (p : Z) : M unit :=
  modify (λ r, set_Prs (delete p (Prs r)) r);;
  r ← get;
  if Z.of_nat (size (Prs r)) =? 0 then mret tt
  else
    changed ← maybeCommit;
    (if changed : bool then bcastAppend else mret tt);;
    r ← get;
    if bool_decide (State r = StateLeader) && (leadTransferee r =? p)
    then modify abortLeaderTransfer
    else mret tt.

Definition loadState (state : pb.HardState.t) : M unit :=
  r ← get;
  if (pb.HardState.Commit state <? RaftLog.committed (RaftLog r))
     || (RaftLog.LastIndex (RaftLog r) <? pb.HardState.Commit state)
  then fatal "state.commit is out of range"
  else
    modify (λ r, set_RaftLog
                   (RaftLog.set_committed (RaftLog r) (pb.HardState.Commit state)) r);;
    modify (set_Term (pb.HardState.Term state));;
    modify (set_Vote (pb.HardState.Vote state)).

(** The conf-change pass of a proposal: a ConfChange entry proposed while
    another is pending is replaced by an empty Normal entry, otherwise it
    becomes the pending one.  Returns the new PendingConfIndex and the
    rewritten entries. *)
Fixpoint proposeConfPass (applied li : Z) (i : Z) (pci : Z)
    (ents : list pb.Entry.t) : Z * list pb.Entry.t :=
  match ents with
  | [] => (pci, [])
  | e :: rest =>
      if bool_decide (pb.Entry.EntryType e = pb.EntryConfChange) then
        if applied <? pci then
          let '(p, es) := proposeConfPass applied li (i + 1) pci rest in
          (p, pb.Entry.mk pb.EntryNormal 0 0 [] :: es)
        else
          let '(p, es) :=
            proposeConfPass applied li (i + 1) (add64 (add64 li i) 1) rest in
          (p, e :: es)
      else
        let '(p, es) := proposeConfPass applied li (i + 1) pci rest in
        (p, e :: es)
  end.

Definition set_progress_of (p : Z) (pr : Progress.t) (r : Raft) : Raft :=
  set_Prs (<[p := pr]> (Prs r)) r.

(** stepLeader handle leader's message *)
Definition stepLeader (m : pb.Message.t) : M (option error) :=
  r ← get;
  let pr := getProgress r (pb.Message.From m) in
  if bool_decide (pr = None)
     && bool_decide (pb.Message.MsgType m ≠ pb.MsgBeat)
     && bool_decide (pb.Message.MsgType m ≠ pb.MsgPropose)
  then mret None
  else
    match pb.Message.MsgType m with
    | pb.MsgBeat => bcastHeartbeat;; mret None
    | pb.MsgPropose =>
        if len (pb.Message.Entries m) =? 0 then
          fatal "stepped empty MessageType_MsgPropose"
        else if bool_decide (Prs r !! id r = None) then
          mret (Some ErrProposalDropped)
        else if negb (leadTransferee r =? None_id) then
          mret (Some ErrProposalDropped)
        else
          let '(pci, es) :=
            proposeConfPass (RaftLog.applied (RaftLog r))
              (RaftLog.LastIndex (RaftLog r)) 0 (PendingConfIndex r)
              (pb.Message.Entries m) in
          modify (set_PendingConfIndex pci);;
          appendEntry es;;
          bcastAppend;;
          mret None
    | pb.MsgAppendResponse =>
        match pr with
        | None => panic "nil pointer dereference"
        | Some pr =>
            if pb.Message.Reject m then
              let '(ok, pr') :=
                Progress.maybeDecrTo pr (pb.Message.Index m)
                  (pb.Message.RejectHint m) in
              modify (set_progress_of (pb.Message.From m) pr');;
              (if ok then sendAppend (pb.Message.From m);; mret tt else mret tt);;
              mret None
            else
              let '(ok, pr') := Progress.maybeUpdate pr (pb.Message.Index m) in
              modify (set_progress_of (pb.Message.From m) pr');;
              if ok then panic "Raft: Replication_Step3:::Your code here."
              else mret None
        end
    | pb.MsgHeartbeatResponse =>
        match pr with
        | None => panic "nil pointer dereference"
        | Some pr =>
            (if Progress.Match pr <? RaftLog.LastIndex (RaftLog r)
             then sendAppend (pb.Message.From m);; mret tt else mret tt);;
            mret None
        end
    | pb.MsgTransferLeader =>
        match pr with
        | None => panic "nil pointer dereference"
        | Some pr =>
            let leadTransferee_ := pb.Message.From m in
            let lastLeadTransferee := leadTransferee r in
            if negb (lastLeadTransferee =? None_id)
               && (lastLeadTransferee =? leadTransferee_)
            then mret None
            else
              (if negb (lastLeadTransferee =? None_id)
               then modify abortLeaderTransfer else mret tt);;
              if leadTransferee_ =? id r then mret None
              else
                modify (set_electionElapsed 0);;
                modify (set_leadTransferee leadTransferee_);;
                (if Progress.Match pr =? RaftLog.LastIndex (RaftLog r)
                 then sendTimeoutNow leadTransferee_
                 else sendAppend leadTransferee_;; mret tt);;
                mret None
        end
    | _ => mret None
    end.

(** stepCandidate handle candidate's message *)
Definition stepCandidate (m : pb.Message.t) : M (option error) :=
  match pb.Message.MsgType m with
  | pb.MsgPropose => mret (Some ErrProposalDropped)
  | pb.MsgAppend =>
      becomeFollower (pb.Message.Term m) (pb.Message.From m);;
      handleAppendEntries m;; mret None
  | pb.MsgHeartbeat =>
      becomeFollower (pb.Message.Term m) (pb.Message.From m);;
      handleHeartbeat m;; mret None
  | pb.MsgSnapshot =>
      becomeFollower (pb.Message.Term m) (pb.Message.From m);;
      handleSnapshot m;; mret None
  | pb.MsgRequestVoteResponse =>
      poll (pb.Message.From m) (pb.Message.MsgType m) (negb (pb.Message.Reject m));;
      panic "Raft: Leader_Election_Step6:::Your code here."
  | _ => mret None
  end.

(** stepFollower handle follower's message *)
Definition stepFollower (m : pb.Message.t) : M (option error) :=
  match pb.Message.MsgType m with
  | pb.MsgPropose => mret (Some ErrProposalDropped)
  | pb.MsgAppend =>
      modify (set_electionElapsed 0);;
      modify (set_Lead (pb.Message.From m));;
      handleAppendEntries m;; mret None
  | pb.MsgHeartbeat =>
      modify (set_electionElapsed 0);;
      modify (set_Lead (pb.Message.From m));;
      handleHeartbeat m;; mret None
  | pb.MsgSnapshot =>
      modify (set_electionElapsed 0);;
      modify (set_Lead (pb.Message.From m));;
      handleSnapshot m;; mret None
  | pb.MsgTransferLeader =>
      r ← get;
      if Lead r =? None_id then mret None
      else send (with_To (Lead r) m);; mret None
  | pb.MsgTimeoutNow =>
      r ← get;
      (if promotable r then campaign else mret tt);;
      mret None
  | _ => mret None
  end.

(** ** Step

    [Step] is two consecutive switches.  [termGate] is the first one, on the
    message term: it answers whether [Step] goes on to the second switch
    ([true]) or returns nil at once ([false]).  [dispatch] is the second
    one, on the message kind and the role. *)

Definition adopts_leader (ty : pb.MessageType) : bool :=
  match ty with
  | pb.MsgAppend | pb.MsgHeartbeat | pb.MsgSnapshot => true
  | _ => false
  end.

Definition termGate (m : pb.Message.t) : M bool :=
  r ← get;
  if pb.Message.Term m =? 0 then mret true
  else if Term r <? pb.Message.Term m then
    (if adopts_leader (pb.Message.MsgType m)
     then becomeFollower (pb.Message.Term m) (pb.Message.From m)
     else becomeFollower (pb.Message.Term m) None_id);;
    mret true
  else if pb.Message.Term m <? Term r then mret false
  else mret true.

Definition dispatch (m : pb.Message.t) : M (option error) :=
  r ← get;
  match pb.Message.MsgType m with
  | pb.MsgHup =>
      if bool_decide (State r ≠ StateLeader) then
        match RaftLog.slice (RaftLog r) (add64 (RaftLog.applied (RaftLog r)) 1)
                (add64 (RaftLog.committed (RaftLog r)) 1) with
        | Err _ => fatal "unexpected error getting unapplied entries"
        | Ok ents =>
            if negb (numOfPendingConf ents =? 0)
               && (RaftLog.applied (RaftLog r) <? RaftLog.committed (RaftLog r))
            then mret None
            else campaign;; mret None
        end
      else mret None
  | pb.MsgRequestVote =>
      panic "Raft: Leader_Election_Step5:::Your code here."
  | _ =>
      match State r with
      | StateFollower => stepFollower m
      | StateCandidate => stepCandidate m
      | StateLeader => stepLeader m
      end
  end.

(** Step the entrance of handle message, see `MessageType` on
    `eraftpb.proto` for what msgs should be handled *)
Definition Step (m : pb.Message.t) : M (option error) :=
  go_on ← termGate m;
  if go_on : bool then dispatch m else mret None.

(** tickElection is the scaffold's panic. *)
Definition tickElection : M unit :=
  panic "Raft: Leader_Election_Step1:::Your code here.".

(** tickHeartbeat is run by leaders to send a MessageType_MsgBeat after
    r.heartbeatTimeout. *)
Definition tickHeartbeat : M unit :=
  modify (λ r, set_heartbeatElapsed (wrap_int (heartbeatElapsed r + 1)) r);;
  modify (λ r, set_electionElapsed (wrap_int (electionElapsed r + 1)) r);;
  r ← get;
  (if electionTimeout r <=? electionElapsed r then
     modify (set_electionElapsed 0);;
     if bool_decide (State r = StateLeader) && negb (leadTransferee r =? None_id)
     then modify abortLeaderTransfer else mret tt
   else mret tt);;
  r ← get;
  if bool_decide (State r ≠ StateLeader) then mret tt
  else if heartbeatTimeout r <=? heartbeatElapsed r then
    modify (set_heartbeatElapsed 0);;
    Step (with_From (id r) (pb.Message.zero pb.MsgBeat));;
    mret tt
  else mret tt.

(** tick advances the internal logical clock by a single tick. *)
Definition tick : M unit :=
  r ← get;
  match State r with
  | StateFollower | StateCandidate => tickElection
  | StateLeader => tickHeartbeat
  end.

(** newRaft return a raft peer with the given config *)
Definition newRaft (c : Config) : lockedRand → outcome World :=
  λ g,
  match validate c, Storage c with
  | Some err, _ => Panic err
  | None, None => Panic "storage cannot be nil"
  | None, Some st =>
      let raftlog := RaftLog.newLog st in
      match Storage.InitialState st with
      | Err _ => Panic "InitialState failed"
      | Ok (hs, cs) =>
          let nodes := pb.ConfState.Nodes cs in
          if (0 <? len nodes) && (0 <? len (peers c)) then
            Panic "cannot specify both newRaft (peers) and ConfState.(Nodes)"
          else
            let peers := if 0 <? len nodes then nodes else peers c in
            let r := mkRaft (ID c) 0 0 raftlog
                       (foldl (λ prs p, <[p := Progress.mk 0 1]> prs) ∅ peers)
                       StateFollower ∅ [] None_id (HeartbeatTick c)
                       (ElectionTick c) 0 0 0 0 0 in
            let construct : M unit :=
              (if negb (IsEmptyHardState hs) then loadState hs else mret tt);;
              (if 0 <? Applied c then
                 r ← get;
                 l ← lift (RaftLog.appliedTo (RaftLog r) (Applied c));
                 modify (set_RaftLog l)
               else mret tt);;
              r ← get;
              becomeFollower (Term r) None_id in
            match construct (mkWorld r g) with
            | Done (_, w) => Done w
            | Panic s => Panic s
            | Fatal s => Fatal s
            end
      end
  end.

(** * Proof support, predicates of the claims and sample states *)

(** Unfold the monadic plumbing. *)
Ltac run :=
  cbv [mbind M_bind mret M_ret get modify panic fatal lift draw] in *.

(** Reduce projections of explicit records and the field setters. *)
Ltac proj_simpl :=
  cbn [node globalRand id Term Vote RaftLog Prs State votes msgs Lead
       heartbeatTimeout electionTimeout randomizedElectionTimeout
       leadTransferee PendingConfIndex electionElapsed heartbeatElapsed
       set_Term set_Vote set_RaftLog set_Prs set_State set_votes set_msgs
       set_Lead set_randomizedElectionTimeout set_leadTransferee
       set_PendingConfIndex set_electionElapsed set_heartbeatElapsed
       abortLeaderTransfer RaftLog.storage RaftLog.offset RaftLog.offsetTerm
       RaftLog.entries RaftLog.committed RaftLog.applied RaftLog.stabled
       RaftLog.pending_snapshot RaftLog.set_committed RaftLog.set_applied
       RaftLog.newLog negb fst snd] in *.

(** [Step] replayed [n] times on the same message, collecting the errors. *)
Fixpoint replay (m : pb.Message.t) (n : nat) : M (list (option error)) :=
  match n with
  | O => mret []
  | S n => e ← Step m; es ← replay m n; mret (e :: es)
  end.

(** ** Sample states *)

Definition sample_rand : lockedRand := mkRand (λ k, Z.of_nat k * 7 + 3) 0.

Definition fresh_storage : Storage.t :=
  Storage.mk (Ok (pb.HardState.mk 0 0 0, pb.ConfState.mk [])) 0 0 []
    (Err ErrSnapshotTemporarilyUnavailable).

Definition entry (term index : Z) : pb.Entry.t :=
  pb.Entry.mk pb.EntryNormal term index [].

Definition conf_entry (term index : Z) : pb.Entry.t :=
  pb.Entry.mk pb.EntryConfChange term index [].

(** A log [(1,1),(2,1),(3,2)] with index 2 committed and index 1 applied. *)
Definition sample_log : RaftLog.t :=
  RaftLog.mk fresh_storage 0 0 [entry 1 1; entry 1 2; entry 2 3] 2 1 3 None.

Definition sample_prs : gmap Z Progress.t :=
  <[1 := Progress.mk 3 4]> (<[2 := Progress.mk 2 3]> (<[3 := Progress.mk 0 4]> ∅)).

(** Node 1 of the cluster {1,2,3} in role [st] at term [term]. *)
Definition sample_node (st : StateType) (term : Z) : Raft :=
  mkRaft 1 term 0 sample_log sample_prs st ∅ [] 0 1 10 12 0 0 0 0.

Definition sample_world (st : StateType) (term : Z) : World :=
  mkWorld (sample_node st term) sample_rand.

Definition msg (ty : pb.MessageType) (from term : Z) : pb.Message.t :=
  pb.Message.mk ty 1 from term 0 0 [] 0 None false 0.

(** A proposal cannot be accepted by a node that is not the leader, by a
    leader that is no longer in its progress map, or during a leader
    transfer. *)
Definition cannot_accept (r : Raft) : Prop :=
  State r = StateFollower ∨ State r = StateCandidate
  ∨ (State r = StateLeader
     ∧ (Prs r !! id r = None ∨ leadTransferee r ≠ None_id)).

(** A follower whose index 2, a ConfChange, is committed but not applied. *)
Definition conf_log : RaftLog.t :=
  RaftLog.mk fresh_storage 0 0 [entry 1 1; conf_entry 1 2; entry 2 3] 2 1 3 None.

Definition conf_world : World :=
  mkWorld (set_RaftLog conf_log (sample_node StateFollower 5)) sample_rand.

(** The node after [send] has queued the AppendResponse [(index, reject,
    hint)] for [to]: [send] stamps the sender and the current term. *)
Definition replied (to index : Z) (reject : bool) (hint : Z) (r : Raft) : Raft :=
  set_msgs (msgs r ++ [pb.Message.mk pb.MsgAppendResponse to (id r) (Term r) 0
                         index [] 0 None reject hint]) r.

(** The AppendEntries of scenario E2: previous entry (2,1), one entry (3,1),
    leader commit 3, sent by node 2 at term 5. *)
Definition e2_append : pb.Message.t :=
  pb.Message.mk pb.MsgAppend 1 2 5 1 2 [entry 1 3] 3 None false 0.

Definition e2_log_after : RaftLog.t :=
  RaftLog.mk fresh_storage 0 0 [entry 1 1; entry 1 2; entry 1 3] 3 1 2 None.

(** A snapshot at (7, 3) for the cluster {1,2,3}, sent by node 2 at term 5. *)
Definition snap_7_3 : pb.Snapshot.t :=
  pb.Snapshot.mk []
    (Some (pb.SnapshotMetadata.mk (Some (pb.ConfState.mk [1; 2; 3])) 7 3)).

Definition snapshot_msg : pb.Message.t :=
  pb.Message.mk pb.MsgSnapshot 1 2 5 0 0 [] 0 (Some snap_7_3) false 0.





(** The peers a new node starts with. *)
Definition initial_peers (c : Config) (cs : pb.ConfState.t) : list Z :=
  if 0 <? len (pb.ConfState.Nodes cs) then pb.ConfState.Nodes cs else peers c.

(** The bootstrap configuration of a cluster of one. *)
Definition single_config (i et ht : Z) : Config :=
  mkConfig i [i] et ht (Some fresh_storage) 0.

(** ** Commit advancement *)

(** The match values of the progress map, in map order. *)
Definition match_column (r : Raft) : list Z :=
  Progress.Match <$> (map_to_list (Prs r)).*2.

(** How many peers have matched index [i] or more. *)
Definition replicated_on (r : Raft) (i : Z) : Z :=
  len (filter (λ x, i ≤ x) (match_column r)).

(** Index [i] is replicated on a quorum. *)
Definition quorum_reached (r : Raft) (i : Z) : Prop :=
  quorum r ≤ replicated_on r i.

(** The spec's reading of mci: sort the match values and take the Q-th
    highest, counting from 1 at the highest. *)
Definition qth_highest (r : Raft) : option Z :=
  reverse (sort_uint64 (match_column r)) !! Z.to_nat (quorum r - 1).



(** * Further methods and the predicates of their properties *)

(** SoftState provides state that is useful for logging and debugging. *)
Record SoftState := mkSoftState { ss_Lead : Z; RaftState : StateType }.

(** softState return the softState of this peer *)
Definition softState (r : Raft) : SoftState := mkSoftState (Lead r) (State r).

(** hardState return the hardState of this peer *)
Definition hardState (r : Raft) : pb.HardState.t :=
  pb.HardState.mk (Term r) (Vote r) (RaftLog.committed (RaftLog r)).

Definition GetSnap (r : Raft) : option pb.Snapshot.t :=
  RaftLog.pending_snapshot (RaftLog r).

(** pastElectionTimeout returns true iff r.electionElapsed is greater than
    or equal to the randomized election timeout in
    [electiontimeout, 2 * electiontimeout - 1]. *)
Definition pastElectionTimeout (r : Raft) : bool :=
  randomizedElectionTimeout r <=? electionElapsed r.

(** A computation keeps the relation [R] between the node it starts from
    and the node it returns. *)
Definition keeps (R : Raft → Raft → Prop) {A} (c : M A) : Prop :=
  ∀ w a w', c w = Done (a, w') → R (node w) (node w').

(** What no method touches after construction, the outbox only growing at
    its end, and the role either kept or turned into Follower. *)
Definition frame (r r' : Raft) : Prop :=
  id r' = id r
  ∧ electionTimeout r' = electionTimeout r
  ∧ heartbeatTimeout r' = heartbeatTimeout r
  ∧ (∃ ms, msgs r' = msgs r ++ ms)
  ∧ (State r' = State r ∨ State r' = StateFollower).

(** [frame], with the term kept as well. *)
Definition frame_term (r r' : Raft) : Prop :=
  frame r r' ∧ Term r' = Term r.

(** The number of votes granted in a votes map, as [poll] counts them. *)
Definition granted (vs : gmap Z bool) : Z :=
  len (filter (λ kv, kv.2 = true) (map_to_list vs)).

(** The follower of scenario E2 after the whole [Step] of [e2_append]. *)
Definition e2_world_after : World :=
  mkWorld
    (replied 2 3 false 0
       (set_RaftLog e2_log_after
          (set_Lead 2 (set_electionElapsed 0 (sample_node StateFollower 5)))))
    sample_rand.

(** A computation only returns values satisfying [P]. *)
Definition yields {A} (P : A → Prop) (c : M A) : Prop :=
  ∀ w a w', c w = Done (a, w') → P a.

(** A candidate at term 5 and an AppendEntries that carries term 0. *)
Definition zero_term_append : pb.Message.t :=
  pb.Message.mk pb.MsgAppend 1 2 0 1 1 [] 0 None false 0.

(** A proposal of one entry that carries the higher term 9. *)
Definition termed_proposal : pb.Message.t :=
  pb.Message.mk pb.MsgPropose 1 2 9 0 0 [entry 0 0] 0 None false 0.

(** The votes map after [poll] has recorded the answer [v] of [p]: a first
    answer is kept. *)
Definition record_vote (p : Z) (v : bool) (vs : gmap Z bool) : gmap Z bool :=
  match vs !! p with
  | Some _ => vs
  | None => <[p := v]> vs
  end.

(** Everything but the log and the outbox is the same. *)
Definition only_log_msgs (r r' : Raft) : Prop :=
  id r' = id r ∧ Term r' = Term r ∧ Vote r' = Vote r ∧ Prs r' = Prs r
  ∧ State r' = State r ∧ votes r' = votes r ∧ Lead r' = Lead r
  ∧ heartbeatTimeout r' = heartbeatTimeout r
  ∧ electionTimeout r' = electionTimeout r
  ∧ randomizedElectionTimeout r' = randomizedElectionTimeout r
  ∧ leadTransferee r' = leadTransferee r
  ∧ PendingConfIndex r' = PendingConfIndex r
  ∧ electionElapsed r' = electionElapsed r
  ∧ heartbeatElapsed r' = heartbeatElapsed r.

(** The sample leader after removeNode 3. *)
Definition sample_without_3 : World :=
  mkWorld (set_Prs (delete 3 sample_prs) (sample_node StateLeader 5)) sample_rand.

(** The outbox grown by one message. *)
Definition enqueue (m : pb.Message.t) (r : Raft) : Raft :=
  set_msgs (msgs r ++ [m]) r.

(** The sample follower once it knows node 2 as its leader. *)
Definition follower_of_2 : World :=
  mkWorld (set_Lead 2 (sample_node StateFollower 5)) sample_rand.




(** A leader in the middle of a transfer to peer 2, one tick before its
    election timeout. *)
Definition transferring_leader : World :=
  mkWorld
    (set_leadTransferee 2
       (set_electionElapsed 9
          (mkRaft 1 5 0 sample_log sample_prs StateLeader ∅ [] 1 3 10 12 0 0 0 0)))
    sample_rand.

(** A configuration naming peers although the storage already has a conf
    state. *)
Definition storage_with_nodes : Storage.t :=
  Storage.mk (Ok (pb.HardState.mk 0 0 0, pb.ConfState.mk [1; 2])) 0 0 []
    (Err ErrSnapshotTemporarilyUnavailable).

Definition double_peers_config : Config :=
  mkConfig 1 [1; 2; 3] 10 1 (Some storage_with_nodes) 0.

(** * Properties *)



Lemma add64_max : add64 (two64 - 1) 1 = 0.
Proof. reflexivity. Qed.

Lemma sub64_small a b : 0 ≤ a - b < two64 → sub64 a b = a - b.
Proof. intros H. unfold sub64. by apply Z.mod_small. Qed.

Lemma termGate_lower (w : World) (m : pb.Message.t) :
  0 < pb.Message.Term m < Term (node w) → termGate m w = Done (false, w).
Proof.
  intros [Hpos Hlt]. unfold termGate. run.
  destruct (Z.eqb_spec (pb.Message.Term m) 0) as [?|_]; [lia|].
  destruct (Z.ltb_spec (Term (node w)) (pb.Message.Term m)); [lia|].
  destruct (Z.ltb_spec (pb.Message.Term m) (Term (node w))); [done|lia].
Qed.

Lemma Step_lower_term (w : World) (m : pb.Message.t) :
  0 < pb.Message.Term m < Term (node w) → Step m w = Done (None, w).
Proof. intros H. unfold Step. run. by rewrite (termGate_lower w m H). Qed.

(** C3: a message whose term is positive and strictly below the node's term
    is dropped: [Step] returns nil and the node, its outbound messages and
    the random source are exactly as before; replaying it any number of
    times changes nothing either. *)
Theorem C3_step_lower_term_is_noop (w : World) (m : pb.Message.t) :
  0 < pb.Message.Term m < Term (node w) →
  Step m w = Done (None, w)
  ∧ ∀ n, replay m n w = Done (replicate n None, w).
Proof.
  intros H.
  pose proof (Step_lower_term w m H) as HS.
  split; [exact HS|].
  induction n as [|n IH]; [done|].
  simpl. run. rewrite HS. simpl. by rewrite IH.
Qed.

(** What [becomeFollower] leaves behind, for a node built with a positive
    election timeout (as [validate] demands). *)
Lemma becomeFollower_spec (w : World) (term lead : Z) :
  0 < electionTimeout (node w) →
  ∃ w', becomeFollower term lead w = Done (tt, w')
    ∧ State (node w') = StateFollower
    ∧ Term (node w') = term
    ∧ Lead (node w') = lead
    ∧ Vote (node w') = (if Term (node w) =? term then Vote (node w) else None_id)
    ∧ id (node w') = id (node w)
    ∧ msgs (node w') = msgs (node w)
    ∧ RaftLog (node w') = RaftLog (node w)
    ∧ votes (node w') = ∅
    ∧ leadTransferee (node w') = None_id
    ∧ electionTimeout (node w') = electionTimeout (node w)
    ∧ Prs (node w') =
        map_imap (λ p _, Some (reset_progress (id (node w))
                    (RaftLog.LastIndex (RaftLog (node w))) p)) (Prs (node w)).
Proof.
  destruct w as [r g]. destruct r, g. cbn [node electionTimeout].
  intros Het. unfold becomeFollower, reset, resetRandomizedElectionTimeout.
  run. unfold Intn. cbn -[Z.modulo wrap_int map_imap reset_progress].
  destruct (Z.eqb_spec Term0 term) as [-> |Hne];
    cbn -[Z.modulo wrap_int map_imap reset_progress];
    (destruct (Z.leb_spec electionTimeout0 0) as [?|_]; [lia|]);
    (eexists; split; [reflexivity|]);
    cbn -[Z.modulo wrap_int map_imap reset_progress]; done.
Qed.

Lemma C3_witness :
  Step (msg pb.MsgAppend 2 3) (sample_world StateLeader 5)
    = Done (None, sample_world StateLeader 5)
  ∧ ∀ n, replay (msg pb.MsgAppend 2 3) n (sample_world StateLeader 5)
         = Done (replicate n None, sample_world StateLeader 5).
Proof. apply C3_step_lower_term_is_noop. simpl. lia. Defined.

(** C4: a message of a higher term first turns the node into a Follower at
    the message's term with its vote cleared; the leader recorded is the
    sender exactly for AppendEntries, Heartbeat and Snapshot, and None for
    every other kind; only then does the dispatch on kind and role run, on
    that state. *)
Theorem C4_higher_term_steps_down (w : World) (m : pb.Message.t) :
  0 < electionTimeout (node w) →
  0 ≤ Term (node w) →
  Term (node w) < pb.Message.Term m →
  ∃ w', termGate m w = Done (true, w')
    ∧ Step m w = dispatch m w'
    ∧ State (node w') = StateFollower
    ∧ Term (node w') = pb.Message.Term m
    ∧ Vote (node w') = None_id
    ∧ (pb.Message.MsgType m ∈ [pb.MsgAppend; pb.MsgHeartbeat; pb.MsgSnapshot] →
       Lead (node w') = pb.Message.From m)
    ∧ (pb.Message.MsgType m ∉ [pb.MsgAppend; pb.MsgHeartbeat; pb.MsgSnapshot] →
       Lead (node w') = None_id).
Proof.
  intros Het H0 Hlt.
  destruct (becomeFollower_spec w (pb.Message.Term m)
              (if adopts_leader (pb.Message.MsgType m)
               then pb.Message.From m else None_id) Het)
    as (w' & Hbf & HS & HT & HL & HV & _).
  assert (Hgate : termGate m w = Done (true, w')).
  { unfold termGate. run.
    destruct (Z.eqb_spec (pb.Message.Term m) 0) as [?|_]; [lia|].
    destruct (Z.ltb_spec (Term (node w)) (pb.Message.Term m)); [|lia].
    destruct (adopts_leader (pb.Message.MsgType m)); by rewrite Hbf. }
  exists w'. split; [exact Hgate|]. split.
  { unfold Step. run. by rewrite Hgate. }
  split; [exact HS|]. split; [exact HT|]. split.
  { rewrite HV. destruct (Z.eqb_spec (Term (node w)) (pb.Message.Term m)); [lia|done]. }
  rewrite HL. split; intros Hk.
  - by repeat (apply elem_of_cons in Hk as [->|Hk]); [..|apply elem_of_nil in Hk].
  - destruct (pb.Message.MsgType m); try done; exfalso; apply Hk;
      repeat constructor.
Qed.

Lemma C4_witness :
  ∃ w', termGate (msg pb.MsgHeartbeat 2 7) (sample_world StateLeader 5)
          = Done (true, w')
    ∧ Step (msg pb.MsgHeartbeat 2 7) (sample_world StateLeader 5)
        = dispatch (msg pb.MsgHeartbeat 2 7) w'
    ∧ State (node w') = StateFollower
    ∧ Term (node w') = 7
    ∧ Vote (node w') = None_id
    ∧ (pb.MsgHeartbeat ∈ [pb.MsgAppend; pb.MsgHeartbeat; pb.MsgSnapshot] →
       Lead (node w') = 2)
    ∧ (pb.MsgHeartbeat ∉ [pb.MsgAppend; pb.MsgHeartbeat; pb.MsgSnapshot] →
       Lead (node w') = None_id).
Proof.
  apply (C4_higher_term_steps_down (sample_world StateLeader 5)
           (msg pb.MsgHeartbeat 2 7)); simpl; lia.
Defined.

Lemma termGate_local_or_same (w : World) (m : pb.Message.t) :
  pb.Message.Term m = 0 ∨ pb.Message.Term m = Term (node w) →
  termGate m w = Done (true, w).
Proof.
  intros H. unfold termGate. run.
  destruct (Z.eqb_spec (pb.Message.Term m) 0) as [?|Hnz]; [done|].
  destruct H as [?| ->]; [done|].
  by rewrite Z.ltb_irrefl.
Qed.

Lemma Step_local_or_same (w : World) (m : pb.Message.t) :
  pb.Message.Term m = 0 ∨ pb.Message.Term m = Term (node w) →
  Step m w = dispatch m w.
Proof.
  intros H. unfold Step. run. by rewrite (termGate_local_or_same w m H).
Qed.

(** C7: for a non-empty Propose (a local message, or one of the node's own
    term), [Step] returns ErrProposalDropped exactly when the node cannot
    accept the proposal; in that case nothing at all changes, so no entry is
    appended and no message is sent.  An accepted proposal runs into the
    scaffold's panic of appendEntry. *)
Theorem C7_proposal_dropped_iff (w : World) (m : pb.Message.t) :
  pb.Message.MsgType m = pb.MsgPropose →
  pb.Message.Entries m ≠ [] →
  pb.Message.Term m = 0 ∨ pb.Message.Term m = Term (node w) →
  ((∃ w', Step m w = Done (Some ErrProposalDropped, w'))
     ↔ cannot_accept (node w))
  ∧ (cannot_accept (node w) →
     Step m w = Done (Some ErrProposalDropped, w))
  ∧ (¬ cannot_accept (node w) →
     Step m w = Panic "Raft: Replication_Step1:::Your code here.").
Proof.
  intros Hty Hne Hterm. rewrite (Step_local_or_same w m Hterm).
  assert (Hlen : (len (pb.Message.Entries m) =? 0) = false).
  { apply Z.eqb_neq. unfold len. destruct (pb.Message.Entries m); [done|].
    simpl. lia. }
  assert (Hdrop : cannot_accept (node w) →
                  dispatch m w = Done (Some ErrProposalDropped, w)).
  { intros Hc. unfold dispatch. run. rewrite Hty.
    destruct Hc as [HS|[HS|(HS & Hc)]]; rewrite HS.
    - unfold stepFollower. by rewrite Hty.
    - unfold stepCandidate. by rewrite Hty.
    - unfold stepLeader. run. rewrite Hty, Hlen.
      rewrite andb_false_r. simpl.
      destruct Hc as [Hc|Hc].
      + by rewrite bool_decide_eq_true_2.
      + case_bool_decide; [done|].
        by destruct (Z.eqb_spec (leadTransferee (node w)) None_id). }
  assert (Hacc : ¬ cannot_accept (node w) →
                 dispatch m w = Panic "Raft: Replication_Step1:::Your code here.").
  { intros Hc. unfold dispatch. run. rewrite Hty.
    destruct (State (node w)) eqn:HS;
      [exfalso; apply Hc; by left|exfalso; apply Hc; right; by left|].
    unfold stepLeader. run. rewrite Hty, Hlen. rewrite andb_false_r. simpl.
    case_bool_decide as Hin; [exfalso; apply Hc; right; right; auto|].
    destruct (Z.eqb_spec (leadTransferee (node w)) None_id) as [Hlt|Hlt];
      [|exfalso; apply Hc; right; right; auto].
    simpl. by destruct (proposeConfPass _ _ _ _ _). }
  split; [|split; [exact Hdrop|exact Hacc]].
  split.
  - intros [w' Hstep].
    destruct (State (node w)) eqn:HS; [by left|right; by left|].
    right; right. split; [done|].
    destruct (Prs (node w) !! id (node w)) eqn:Hin; [|by left].
    right. intros Hlt. rewrite Hacc in Hstep; [done|].
    intros [?|[?|(_ & [?|?])]]; congruence.
  - intros Hc. exists w. by apply Hdrop.
Qed.

Lemma C7_witness :
  let m := pb.Message.mk pb.MsgPropose 1 1 0 0 0 [entry 0 0] 0 None false 0 in
  let w := sample_world StateLeader 5 in
  ((∃ w', Step m w = Done (Some ErrProposalDropped, w'))
     ↔ cannot_accept (node w))
  ∧ (cannot_accept (node w) →
     Step m w = Done (Some ErrProposalDropped, w))
  ∧ (¬ cannot_accept (node w) →
     Step m w = Panic "Raft: Replication_Step1:::Your code here.").
Proof.
  intros m w. apply (C7_proposal_dropped_iff w m); [reflexivity|done|by left].
Defined.

Lemma numOfPendingConf_pos (ents : list pb.Entry.t) (e : pb.Entry.t) :
  e ∈ ents → pb.Entry.EntryType e = pb.EntryConfChange →
  numOfPendingConf ents ≠ 0.
Proof.
  intros Hin He. unfold numOfPendingConf, len.
  assert (Hf : e ∈ filter (λ e, pb.Entry.EntryType e = pb.EntryConfChange) ents)
    by (by apply list_elem_of_filter).
  destruct (filter _ ents); [by apply elem_of_nil in Hf|]. simpl. lia.
Qed.

(** C10: a node that is not the leader and still has a committed but
    unapplied ConfChange entry does not campaign on Hup: [Step] returns nil
    and the node (role, term, outbound messages and all the rest) is
    unchanged. *)
Theorem C10_hup_with_pending_conf (w : World) (m : pb.Message.t)
    (ents : list pb.Entry.t) (e : pb.Entry.t) :
  pb.Message.MsgType m = pb.MsgHup →
  0 ≤ pb.Message.Term m ≤ Term (node w) →
  State (node w) ≠ StateLeader →
  RaftLog.applied (RaftLog (node w)) < RaftLog.committed (RaftLog (node w)) →
  RaftLog.slice (RaftLog (node w))
    (add64 (RaftLog.applied (RaftLog (node w))) 1)
    (add64 (RaftLog.committed (RaftLog (node w))) 1) = Ok ents →
  e ∈ ents → pb.Entry.EntryType e = pb.EntryConfChange →
  Step m w = Done (None, w).
Proof.
  intros Hty Hterm HS Hlt Hslice Hin He.
  destruct (decide (0 < pb.Message.Term m < Term (node w))) as [Hlow|Hnl].
  { by apply Step_lower_term. }
  rewrite Step_local_or_same by lia.
  unfold dispatch. run. rewrite Hty, Hslice.
  rewrite bool_decide_eq_true_2 by done.
  destruct (Z.eqb_spec (numOfPendingConf ents) 0) as [Hz|_].
  { by apply (numOfPendingConf_pos ents e) in Hz. }
  destruct (Z.ltb_spec (RaftLog.applied (RaftLog (node w)))
              (RaftLog.committed (RaftLog (node w)))); [done|lia].
Qed.

Lemma C10_witness :
  Step (msg pb.MsgHup 1 0) conf_world = Done (None, conf_world).
Proof.
  apply (C10_hup_with_pending_conf conf_world (msg pb.MsgHup 1 0)
           [conf_entry 1 2] (conf_entry 1 2)).
  - reflexivity.
  - simpl. lia.
  - done.
  - simpl. lia.
  - reflexivity.
  - constructor.
  - reflexivity.
Defined.


(** C5: the three replies of handleAppendEntries.  Below the commit index
    the reply carries the commit index and nothing else changes; otherwise
    the log is the one maybeAppend leaves, and the reply carries the index
    maybeAppend returned on success, or the message's index with the reject
    flag and the log's last index as hint on failure. *)
Theorem C5_handleAppendEntries_replies (w : World) (m : pb.Message.t) :
  let r := node w in
  let l := RaftLog r in
  let attempt := RaftLog.maybeAppend l (pb.Message.Index m) (pb.Message.LogTerm m)
               (pb.Message.Commit m) (pb.Message.Entries m) in
  (pb.Message.Index m < RaftLog.committed l →
   handleAppendEntries m w
   = Done (tt, mkWorld (replied (pb.Message.From m) (RaftLog.committed l)
                          false 0 r) (globalRand w)))
  ∧ (RaftLog.committed l ≤ pb.Message.Index m →
     ∀ mlastIndex l', attempt = Done (Some mlastIndex, l') →
     handleAppendEntries m w
     = Done (tt, mkWorld (replied (pb.Message.From m) mlastIndex false 0
                            (set_RaftLog l' r)) (globalRand w)))
  ∧ (RaftLog.committed l ≤ pb.Message.Index m →
     ∀ l', attempt = Done (None, l') →
     handleAppendEntries m w
     = Done (tt, mkWorld (replied (pb.Message.From m) (pb.Message.Index m) true
                            (RaftLog.LastIndex l') (set_RaftLog l' r))
                   (globalRand w))).
Proof.
  intros r l attempt. subst r l attempt. unfold handleAppendEntries. run.
  repeat split.
  - intros Hlt.
    destruct (Z.ltb_spec (pb.Message.Index m)
                (RaftLog.committed (RaftLog (node w)))); [done|lia].
  - intros Hge mlastIndex l' Htry.
    destruct (Z.ltb_spec (pb.Message.Index m)
                (RaftLog.committed (RaftLog (node w)))); [lia|].
    by rewrite Htry.
  - intros Hge l' Htry.
    destruct (Z.ltb_spec (pb.Message.Index m)
                (RaftLog.committed (RaftLog (node w)))); [lia|].
    by rewrite Htry.
Qed.

Lemma C5_witness :
  handleAppendEntries e2_append (sample_world StateFollower 5)
  = Done (tt, mkWorld (replied 2 3 false 0
                         (set_RaftLog e2_log_after (sample_node StateFollower 5)))
                sample_rand).
Proof.
  apply (proj1 (proj2 (C5_handleAppendEntries_replies
                         (sample_world StateFollower 5) e2_append))).
  - simpl. lia.
  - reflexivity.
Defined.

(** [restoreNode] gives every listed node the progress of a fresh peer and
    leaves the others alone. *)
Lemma restoreNode_frame (nodes : list Z) (r : Raft) :
  id (restoreNode nodes r) = id r
  ∧ RaftLog (restoreNode nodes r) = RaftLog r
  ∧ Term (restoreNode nodes r) = Term r
  ∧ msgs (restoreNode nodes r) = msgs r
  ∧ State (restoreNode nodes r) = State r.
Proof.
  revert r. induction nodes as [|n nodes IH]; intros r; [done|].
  simpl. destruct (IH (setProgress n
     (if n =? id r then sub64 (add64 (RaftLog.LastIndex (RaftLog r)) 1) 1 else 0)
     (add64 (RaftLog.LastIndex (RaftLog r)) 1) r)) as (-> & -> & -> & -> & ->).
  done.
Qed.

Lemma restoreNode_lookup (nodes : list Z) (r : Raft) (p : Z) :
  Prs (restoreNode nodes r) !! p =
    if decide (p ∈ nodes)
    then Some (Progress.mk
                 (if p =? id r
                  then sub64 (add64 (RaftLog.LastIndex (RaftLog r)) 1) 1 else 0)
                 (add64 (RaftLog.LastIndex (RaftLog r)) 1))
    else Prs r !! p.
Proof.
  revert r. induction nodes as [|n nodes IH]; intros r.
  - by rewrite decide_False by apply not_elem_of_nil.
  - change (restoreNode (n :: nodes) r) with
      (restoreNode nodes (setProgress n
         (if n =? id r
          then sub64 (add64 (RaftLog.LastIndex (RaftLog r)) 1) 1 else 0)
         (add64 (RaftLog.LastIndex (RaftLog r)) 1) r)).
    rewrite IH. cbn [setProgress set_Prs id RaftLog Prs].
    destruct (decide (p ∈ nodes)) as [Hin|Hnin].
    + by rewrite decide_True by (by right).
    + destruct (decide (p = n)) as [-> |Hne].
      * rewrite decide_True by (by left). by rewrite lookup_insert_eq.
      * rewrite decide_False by (by intros [?|?]%elem_of_cons).
        by rewrite lookup_insert_ne.
Qed.

(** C6: the three outcomes of handleSnapshot.  A snapshot at or below the
    commit index is dropped and answered with the commit index.  A snapshot
    the log already matches only moves the commit index to the snapshot
    index: entries and progress map stay.  Otherwise the log is reset to the
    snapshot, the progress map holds exactly the nodes of the snapshot's
    conf state, each as a fresh peer, and the answer carries the new last
    index. *)
Theorem C6_handleSnapshot_cases (w : World) (m : pb.Message.t)
    (s : pb.Snapshot.t) (md : pb.SnapshotMetadata.t) :
  pb.Message.Snapshot m = Some s →
  pb.Snapshot.Metadata s = Some md →
  let r := node w in
  let l := RaftLog r in
  let sindex := pb.SnapshotMetadata.Index md in
  let sterm := pb.SnapshotMetadata.Term md in
  (sindex ≤ RaftLog.committed l →
   handleSnapshot m w
   = Done (tt, mkWorld (replied (pb.Message.From m) (RaftLog.committed l)
                          false 0 r) (globalRand w)))
  ∧ (RaftLog.committed l < sindex →
     RaftLog.matchTerm l sindex sterm = true →
     handleSnapshot m w
     = Done (tt, mkWorld (replied (pb.Message.From m) sindex false 0
                            (set_RaftLog (RaftLog.set_committed l sindex) r))
                   (globalRand w)))
  ∧ (RaftLog.committed l < sindex →
     RaftLog.matchTerm l sindex sterm = false →
     ∀ cs, pb.SnapshotMetadata.ConfState md = Some cs →
     ∃ r', handleSnapshot m w = Done (tt, mkWorld r' (globalRand w))
       ∧ RaftLog r'
         = RaftLog.mk (RaftLog.storage l) sindex sterm [] sindex sindex sindex
             (Some s)
       ∧ (∀ p, Prs r' !! p =
            if decide (p ∈ pb.ConfState.Nodes cs)
            then Some (Progress.mk
                         (if p =? id r
                          then sub64 (add64 (RaftLog.LastIndex (RaftLog r')) 1) 1
                          else 0)
                         (add64 (RaftLog.LastIndex (RaftLog r')) 1))
            else None)
       ∧ msgs r' = msgs r ++
           [pb.Message.mk pb.MsgAppendResponse (pb.Message.From m) (id r)
              (Term r) 0 (RaftLog.LastIndex (RaftLog r')) [] 0 None false 0]
       ∧ RaftLog.LastIndex (RaftLog r') = sindex `mod` two64).
Proof.
  intros Hs Hmd r l sindex sterm. subst r l sindex sterm.
  unfold handleSnapshot, restore. rewrite Hs, Hmd. run.
  repeat split.
  - intros Hle.
    destruct (Z.leb_spec (pb.SnapshotMetadata.Index md)
                (RaftLog.committed (RaftLog (node w)))); [done|lia].
  - intros Hlt Hmatch.
    destruct (Z.leb_spec (pb.SnapshotMetadata.Index md)
                (RaftLog.committed (RaftLog (node w)))); [lia|].
    rewrite Hmatch. unfold RaftLog.commitTo.
    destruct (Z.ltb_spec (pb.SnapshotMetadata.Index md)
                (RaftLog.committed (RaftLog (node w)))); [lia|done].
  - intros Hlt Hmatch cs Hcs.
    destruct (Z.leb_spec (pb.SnapshotMetadata.Index md)
                (RaftLog.committed (RaftLog (node w)))); [lia|].
    rewrite Hmatch. unfold RaftLog.restore. rewrite Hmd, Hcs.
    cbn [node globalRand].
    set (r0 := set_Prs ∅ (set_RaftLog _ (node w))).
    destruct (restoreNode_frame (pb.ConfState.Nodes cs) r0)
      as (Hid & Hlog & Hterm & Hmsgs & _).
    unfold send. run. cbn [node globalRand is_vote_msg pb.Message.MsgType
      with_From appendResponse pb.Message.Term negb Z.eqb bool_decide
      decide_rel].
    eexists. split; [reflexivity|].
    unfold replied.
    cbn [node RaftLog Prs msgs set_msgs with_Term with_From appendResponse].
    rewrite Hlog, Hid, Hterm, Hmsgs. subst r0. cbn [RaftLog set_Prs set_RaftLog id Term msgs].
    split; [done|]. split.
    { intros p. rewrite restoreNode_lookup. cbn [RaftLog set_Prs set_RaftLog id Prs].
      destruct (decide (p ∈ pb.ConfState.Nodes cs)); [done|].
      apply lookup_empty. }
    split; [done|].
    unfold RaftLog.LastIndex, add64, len. cbn. by rewrite Z.add_0_r.
Qed.

Lemma C6_witness :
  ∃ r', handleSnapshot snapshot_msg (sample_world StateFollower 5)
        = Done (tt, mkWorld r' sample_rand)
    ∧ RaftLog r' = RaftLog.mk fresh_storage 7 3 [] 7 7 7 (Some snap_7_3)
    ∧ (∀ p, Prs r' !! p =
         if decide (p ∈ [1; 2; 3])
         then Some (Progress.mk
                      (if p =? 1
                       then sub64 (add64 (RaftLog.LastIndex (RaftLog r')) 1) 1
                       else 0)
                      (add64 (RaftLog.LastIndex (RaftLog r')) 1))
         else None)
    ∧ msgs r' =
        [pb.Message.mk pb.MsgAppendResponse 2 1 5 0
           (RaftLog.LastIndex (RaftLog r')) [] 0 None false 0]
    ∧ RaftLog.LastIndex (RaftLog r') = 7 `mod` two64.
Proof.
  refine (proj2 (proj2 (C6_handleSnapshot_cases (sample_world StateFollower 5)
                          snapshot_msg snap_7_3
                          (pb.SnapshotMetadata.mk (Some (pb.ConfState.mk [1; 2; 3])) 7 3)
                          eq_refl eq_refl)) _ _ (pb.ConfState.mk [1; 2; 3]) eq_refl).
  - simpl. lia.
  - reflexivity.
Defined.









Lemma validate_ticks (c : Config) :
  validate c = None →
  ID c ≠ None_id ∧ 0 < HeartbeatTick c < ElectionTick c ∧ is_Some (Storage c).
Proof.
  unfold validate.
  destruct (Z.eqb_spec (ID c) None_id); [done|].
  destruct (Z.leb_spec (HeartbeatTick c) 0); [done|].
  destruct (Z.leb_spec (ElectionTick c) (HeartbeatTick c)); [done|].
  destruct (Storage c); [|done]. intros _. repeat split; eauto; lia.
Qed.

(** What a successful [newRaft] returns. *)
Lemma newRaft_spec (c : Config) (g : lockedRand) (w : World) :
  newRaft c g = Done w →
  ∃ st hs cs,
    Storage c = Some st
    ∧ Storage.InitialState st = Ok (hs, cs)
    ∧ State (node w) = StateFollower
    ∧ Lead (node w) = None_id
    ∧ msgs (node w) = []
    ∧ id (node w) = ID c
    ∧ Term (node w) = (if IsEmptyHardState hs then 0 else pb.HardState.Term hs)
    ∧ Vote (node w) = (if IsEmptyHardState hs then 0 else pb.HardState.Vote hs)
    ∧ RaftLog.entries (RaftLog (node w)) = Storage.ents st
    ∧ RaftLog.offset (RaftLog (node w)) = Storage.snapIndex st
    ∧ RaftLog.committed (RaftLog (node w))
      = (if IsEmptyHardState hs then Storage.snapIndex st
         else pb.HardState.Commit hs)
    ∧ Prs (node w) =
        map_imap (λ p _, Some (reset_progress (ID c)
                    (RaftLog.LastIndex (RaftLog (node w))) p))
          (foldl (λ prs p, <[p := Progress.mk 0 1]> prs) ∅ (initial_peers c cs)).
Proof.
  unfold newRaft. intros H.
  destruct (validate c) eqn:Hval; [done|].
  apply validate_ticks in Hval as (_ & Hticks & _).
  destruct (Storage c) as [st|]; [|done].
  destruct (Storage.InitialState st) as [[hs cs]|] eqn:Hinit; [|done].
  exists st, hs, cs. split; [done|]. split; [done|].
  destruct ((0 <? len (pb.ConfState.Nodes cs)) && (0 <? len (peers c)));
    [done|].
  fold (initial_peers c cs) in H. revert H. run.
  set (prs0 := foldl _ ∅ (initial_peers c cs)).
  unfold loadState, RaftLog.appliedTo. run. proj_simpl.
  destruct (IsEmptyHardState hs) eqn:Hhs; proj_simpl;
    [|destruct (_ || _); [done|]; proj_simpl];
    (destruct (0 <? Applied c); proj_simpl;
     [destruct (Applied c <? Storage.snapIndex st); [done|]; proj_simpl|]);
    match goal with |- context [becomeFollower ?t ?l ?w0] =>
      destruct (becomeFollower_spec w0 t l ltac:(cbn; lia))
        as (w' & -> & HS & HT & HL & HV & Hid & Hm & Hlog & _ & _ & _ & HP)
    end;
    intros [= <-]; rewrite HS, HT, HL, HV, Hid, Hm, Hlog, HP; proj_simpl;
    rewrite ?Z.eqb_refl; done.
Qed.

(** A node that [newRaft] returns has a positive election timeout, the
    precondition under which [becomeFollower] draws its randomized timeout;
    no method of the node assigns [electionTimeout] afterwards. *)
Lemma newRaft_electionTimeout_pos (c : Config) (g : lockedRand) (w : World) :
  newRaft c g = Done w → 0 < electionTimeout (node w).
Proof.
  unfold newRaft. intros H.
  destruct (validate c) eqn:Hval; [done|].
  apply validate_ticks in Hval as (_ & Hticks & _).
  destruct (Storage c) as [st|]; [|done].
  destruct (Storage.InitialState st) as [[hs cs]|] eqn:Hinit; [|done].
  destruct ((0 <? len (pb.ConfState.Nodes cs)) && (0 <? len (peers c)));
    [done|].
  revert H. run. unfold loadState, RaftLog.appliedTo. run. proj_simpl.
  destruct (IsEmptyHardState hs) eqn:Hhs; proj_simpl;
    [|destruct (_ || _); [done|]; proj_simpl];
    (destruct (0 <? Applied c); proj_simpl;
     [destruct (Applied c <? Storage.snapIndex st); [done|]; proj_simpl|]);
    match goal with |- context [becomeFollower ?t ?l ?w0] =>
      destruct (becomeFollower_spec w0 t l ltac:(cbn; lia))
        as (w' & -> & _ & _ & _ & _ & _ & _ & _ & _ & _ & Het & _)
    end;
    intros [= <-]; rewrite Het; proj_simpl; lia.
Qed.






Lemma filter_all {A} (P : A → Prop) `{∀ x, Decision (P x)} (l : list A) :
  Forall P l → filter P l = l.
Proof.
  induction 1 as [|x l Hx _ IH]; [done|].
  by rewrite filter_cons_True, IH.
Qed.

Lemma filter_none {A} (P : A → Prop) `{∀ x, Decision (P x)} (l : list A) :
  Forall (λ x, ¬ P x) l → filter P l = [].
Proof.
  induction 1 as [|x l Hx _ IH]; [done|].
  by rewrite filter_cons_False, IH.
Qed.

(** In an ascending list, the element at position [k] has at least
    [length l - k] elements at or above it, and any larger value has fewer. *)
Lemma sorted_lookup_count (l : list Z) (k : nat) (x : Z) :
  StronglySorted Z.le l → l !! k = Some x →
  (length l - k ≤ length (filter (λ y, (x ≤ y)%Z) l))%nat
  ∧ ∀ i, x < i → (length (filter (λ y, (i ≤ y)%Z) l) < length l - k)%nat.
Proof.
  intros Hs Hk.
  pose proof (take_drop_middle l k x Hk) as Hsplit.
  pose proof (lookup_lt_Some l k x Hk) as Hlen.
  assert (Hl : length l = (k + S (length (drop (S k) l)))%nat).
  { rewrite length_drop. lia. }
  rewrite <- Hsplit in Hs.
  apply StronglySorted_app in Hs as (Hcross & _ & Hs2).
  apply StronglySorted_cons in Hs2 as [Hx _].
  split.
  - rewrite <- Hsplit at 2. rewrite filter_app, length_app.
    rewrite (filter_all (λ y, x ≤ y) (x :: drop (S k) l)).
    + simpl. lia.
    + constructor; [lia|done].
  - intros i Hi. rewrite <- Hsplit at 1. rewrite filter_app, length_app.
    rewrite (filter_none (λ y, i ≤ y) (take k l)).
    + rewrite filter_cons_False by lia. simpl.
      pose proof (length_filter (λ y, i ≤ y) (drop (S k) l)). lia.
    + apply Forall_forall. intros y Hy.
      assert (y ≤ x) by (apply Hcross; [done|by left]). lia.
Qed.

Lemma matchIndex_sorted (r : Raft) : StronglySorted Z.le (matchIndex r).
Proof. apply StronglySorted_merge_sort; apply _. Qed.

Lemma matchIndex_perm (r : Raft) : matchIndex r ≡ₚ match_column r.
Proof. apply merge_sort_Permutation. Qed.

Lemma matchIndex_length (r : Raft) : length (matchIndex r) = size (Prs r).
Proof.
  rewrite (Permutation_length (matchIndex_perm r)).
  unfold match_column. by rewrite !length_fmap, length_map_to_list.
Qed.

Lemma replicated_on_sorted (r : Raft) (i : Z) :
  replicated_on r i = len (filter (λ x, i ≤ x) (matchIndex r)).
Proof.
  unfold replicated_on, len. f_equal. apply Permutation_length.
  by rewrite (matchIndex_perm r).
Qed.

Lemma quorum_bounds (r : Raft) :
  Prs r ≠ ∅ → 1 ≤ quorum r ≤ Z.of_nat (size (Prs r)).
Proof.
  intros Hne. apply map_size_non_empty_iff in Hne. unfold quorum.
  pose proof (Z.div_mod (Z.of_nat (size (Prs r))) 2 ltac:(lia)).
  pose proof (Z.mod_pos_bound (Z.of_nat (size (Prs r))) 2 ltac:(lia)).
  lia.
Qed.

(** With a non-empty progress map the index computed by maybeCommit is in
    range, and the value found there is the largest index replicated on a
    quorum, which is also the Q-th highest match value. *)
Lemma mci_is_quorum_index (r : Raft) :
  Prs r ≠ ∅ →
  ∃ mci,
    index_int (matchIndex r) (len (matchIndex r) - quorum r) = Done mci
    ∧ qth_highest r = Some mci
    ∧ quorum_reached r mci
    ∧ ∀ i, quorum_reached r i → i ≤ mci.
Proof.
  intros Hne. pose proof (quorum_bounds r Hne) as HQ.
  pose proof (matchIndex_length r) as HN.
  set (k := Z.to_nat (len (matchIndex r) - quorum r)).
  assert (Hk : (k < length (matchIndex r))%nat) by (unfold k, len; lia).
  destruct (lookup_lt_is_Some_2 (matchIndex r) k Hk) as [mci Hmci].
  exists mci.
  destruct (sorted_lookup_count _ k mci (matchIndex_sorted r) Hmci)
    as [Hge Hgt].
  split; [|split; [|split]].
  - unfold index_int. fold k.
    destruct (Z.ltb_spec (len (matchIndex r) - quorum r) 0);
      [unfold len in *; lia|].
    by rewrite Hmci.
  - unfold qth_highest.
    change (sort_uint64 (match_column r)) with (matchIndex r).
    apply reverse_lookup_Some.
    split; [|lia].
    replace (length (matchIndex r) - S (Z.to_nat (quorum r - 1)))%nat with k
      by (unfold k, len; lia).
    done.
  - unfold quorum_reached. rewrite replicated_on_sorted. unfold len.
    unfold k, len in *. lia.
  - intros i Hi. unfold quorum_reached in Hi.
    rewrite replicated_on_sorted in Hi.
    destruct (Z.le_gt_cases i mci) as [?|Hlt]; [done|].
    specialize (Hgt i ltac:(lia)). unfold k, len in *. lia.
Qed.




(** With an empty progress map the index is -1 and maybeCommit panics;
    removeNode, its only caller outside the scaffold's panics, returns
    before calling it in that case. *)
Lemma maybeCommit_empty_panics (w : World) :
  Prs (node w) = ∅ → maybeCommit w = Panic "index out of range".
Proof.
  intros He. unfold maybeCommit, matchIndex, quorum. run. by rewrite He.
Qed.

Lemma removeNode_last_peer (w : World) (p : Z) :
  delete p (Prs (node w)) = ∅ →
  removeNode p w
  = Done (tt, mkWorld (set_Prs ∅ (node w)) (globalRand w)).
Proof.
  intros He. unfold removeNode. run. proj_simpl. by rewrite He.
Qed.

(** * Further properties of the node *)

(** ** A small program logic for frame conditions *)

Section keeps.
Context (R : Raft → Raft → Prop) `{!PreOrder R}.

Lemma keeps_ret {A} (a : A) : keeps R (mret a).
Proof. intros w a' w' [= _ <-]. reflexivity. Qed.

Lemma keeps_get : keeps R get.
Proof. intros w a' w' [= _ <-]. reflexivity. Qed.

Lemma keeps_panic {A} (s : string) : keeps R (panic s : M A).
Proof. by intros w a' w'. Qed.

Lemma keeps_fatal {A} (s : string) : keeps R (fatal s : M A).
Proof. by intros w a' w'. Qed.

Lemma keeps_lift {A} (o : outcome A) : keeps R (lift o).
Proof. intros w a' w'. unfold lift. destruct o; [|done..]. intros [= _ <-]. reflexivity. Qed.

Lemma keeps_draw (n : Z) : keeps R (draw n).
Proof.
  intros w a' w'. unfold draw. destruct (Intn _ _) as [[v g]| |]; [|done..].
  intros [= _ <-]. reflexivity.
Qed.

Lemma keeps_modify (f : Raft → Raft) : (∀ r, R r (f r)) → keeps R (modify f).
Proof. intros Hf w a' w' [= _ <-]. apply Hf. Qed.

Lemma keeps_bind {A B} (c : M A) (f : A → M B) :
  keeps R c → (∀ a, keeps R (f a)) → keeps R (c ≫= f).
Proof.
  intros Hc Hf w b w'. unfold mbind, M_bind.
  destruct (c w) as [[a w1]| |] eqn:Hcw; [|done..].
  intros Hfw. etrans; [by eapply Hc|by eapply Hf].
Qed.

Lemma keeps_foldr {A} (l : list A) (f : A → M unit) :
  (∀ x, keeps R (f x)) →
  keeps R (foldr (λ x k, f x;; k) (mret tt) l).
Proof.
  intros Hf. induction l as [|x l IH]; simpl.
  - apply keeps_ret.
  - apply keeps_bind; [apply Hf|]. intros _. apply IH.
Qed.

End keeps.

#[global] Instance frame_preorder : PreOrder frame.
Proof.
  split.
  - intros r. unfold frame. split_and!; try done; [|by left].
    exists []. by rewrite app_nil_r.
  - intros r1 r2 r3 (Hi1 & He1 & Hh1 & [ms1 Hm1] & Hs1)
      (Hi2 & He2 & Hh2 & [ms2 Hm2] & Hs2).
    unfold frame. rewrite Hi2, He2, Hh2, Hm2, Hm1. split_and!; try done.
    + exists (ms1 ++ ms2). by rewrite app_assoc.
    + destruct Hs2 as [-> | ->]; [done|by right].
Qed.

#[global] Instance frame_term_preorder : PreOrder frame_term.
Proof.
  split.
  - intros r. split; reflexivity.
  - intros r1 r2 r3 [Hf1 Ht1] [Hf2 Ht2]. split; [by etrans|congruence].
Qed.

Lemma keeps_weaken {A} (c : M A) : keeps frame_term c → keeps frame c.
Proof. intros H w a w' Hc. by destruct (H w a w' Hc). Qed.

Create HintDb keeps discriminated.

(** A setter that leaves the framed fields alone. *)
Ltac frame_solve :=
  intros; unfold only_log_msgs, frame_term, frame, setProgress,
    set_progress_of, abortLeaderTransfer; proj_simpl;
  split_and!; try done;
  try (by eexists []; rewrite app_nil_r); try (by eexists);
  try (by left); try (by right).

Ltac keeps_go :=
  repeat first
    [ apply keeps_ret; solve [apply _]
    | apply keeps_get; solve [apply _]
    | apply keeps_panic | apply keeps_fatal
    | apply keeps_lift; solve [apply _]
    | apply keeps_draw; solve [apply _]
    | solve [auto with keeps]
    | solve [apply keeps_weaken; auto with keeps]
    | apply keeps_bind; [apply _| |intros ?]
    | apply keeps_modify; solve [frame_solve]
    | match goal with
      | |- keeps _ (if ?b then _ else _) => destruct b
      | |- keeps _ (match ?x with _ => _ end) => destruct x
      end ].

Lemma send_keeps (m : pb.Message.t) : keeps frame_term (send m).
Proof. unfold send. keeps_go. Qed.
#[global] Hint Resolve send_keeps : keeps.

Lemma resetRandomizedElectionTimeout_keeps :
  keeps frame_term resetRandomizedElectionTimeout.
Proof. unfold resetRandomizedElectionTimeout. keeps_go. Qed.
#[global] Hint Resolve resetRandomizedElectionTimeout_keeps : keeps.

Lemma reset_keeps (term : Z) : keeps frame (reset term).
Proof. unfold reset. keeps_go. Qed.
#[global] Hint Resolve reset_keeps : keeps.

Lemma becomeFollower_keeps (term lead : Z) : keeps frame (becomeFollower term lead).
Proof. unfold becomeFollower. keeps_go. Qed.
#[global] Hint Resolve becomeFollower_keeps : keeps.

Lemma maybeCommit_keeps : keeps frame_term maybeCommit.
Proof. unfold maybeCommit. keeps_go. Qed.
#[global] Hint Resolve maybeCommit_keeps : keeps.

Lemma appendEntry_keeps (es : list pb.Entry.t) : keeps frame_term (appendEntry es).
Proof. unfold appendEntry. keeps_go. Qed.
#[global] Hint Resolve appendEntry_keeps : keeps.

Lemma sendAppend_keeps (to : Z) : keeps frame_term (sendAppend to).
Proof. unfold sendAppend. keeps_go. Qed.
#[global] Hint Resolve sendAppend_keeps : keeps.

Lemma sendHeartbeat_keeps (to : Z) : keeps frame_term (sendHeartbeat to).
Proof. unfold sendHeartbeat. keeps_go. Qed.
#[global] Hint Resolve sendHeartbeat_keeps : keeps.

Lemma forEachProgress_keeps (R : Raft → Raft → Prop) `{!PreOrder R}
    (f : Z → Progress.t → M unit) :
  (∀ p pr, keeps R (f p pr)) → keeps R (forEachProgress f).
Proof.
  intros Hf. unfold forEachProgress. apply keeps_bind; [apply _|by apply keeps_get|].
  intros r. induction (map_to_list (Prs r)) as [|[p pr] l IH]; simpl.
  - by apply keeps_ret.
  - apply keeps_bind; [apply _|apply Hf|]. intros _. apply IH.
Qed.

Lemma bcastAppend_keeps : keeps frame_term bcastAppend.
Proof.
  unfold bcastAppend. apply keeps_bind; [apply _|keeps_go|].
  intros r. apply forEachProgress_keeps; [apply _|]. intros p pr. keeps_go.
Qed.
#[global] Hint Resolve bcastAppend_keeps : keeps.

Lemma bcastHeartbeat_keeps : keeps frame_term bcastHeartbeat.
Proof.
  unfold bcastHeartbeat. apply keeps_bind; [apply _|keeps_go|].
  intros r. apply forEachProgress_keeps; [apply _|]. intros p pr. keeps_go.
Qed.
#[global] Hint Resolve bcastHeartbeat_keeps : keeps.

Lemma becomeCandidate_keeps : keeps frame_term becomeCandidate.
Proof. unfold becomeCandidate. keeps_go. Qed.
#[global] Hint Resolve becomeCandidate_keeps : keeps.

Lemma becomeLeader_keeps : keeps frame becomeLeader.
Proof.
  intros w a w'. unfold becomeLeader, appendEntry. run.
  by destruct (reset (Term (node w)) w) as [[[] w1]| |].
Qed.
#[global] Hint Resolve becomeLeader_keeps : keeps.

Lemma poll_keeps (p : Z) (t : pb.MessageType) (v : bool) :
  keeps frame_term (poll p t v).
Proof.
  unfold poll. apply keeps_bind; [apply _| |intros ?; keeps_go].
  apply keeps_modify. intros r. destruct (votes r !! p); frame_solve.
Qed.
#[global] Hint Resolve poll_keeps : keeps.

Lemma campaign_keeps : keeps frame_term campaign.
Proof. unfold campaign. keeps_go. Qed.
#[global] Hint Resolve campaign_keeps : keeps.

Lemma sendTimeoutNow_keeps (to : Z) : keeps frame_term (sendTimeoutNow to).
Proof. unfold sendTimeoutNow. keeps_go. Qed.
#[global] Hint Resolve sendTimeoutNow_keeps : keeps.

Lemma handleAppendEntries_keeps (m : pb.Message.t) :
  keeps frame_term (handleAppendEntries m).
Proof. unfold handleAppendEntries. keeps_go. Qed.
#[global] Hint Resolve handleAppendEntries_keeps : keeps.

Lemma handleHeartbeat_keeps (m : pb.Message.t) :
  keeps frame_term (handleHeartbeat m).
Proof. unfold handleHeartbeat. keeps_go. Qed.
#[global] Hint Resolve handleHeartbeat_keeps : keeps.

Lemma restoreNode_frame_term (nodes : list Z) (r : Raft) :
  frame_term r (restoreNode nodes r).
Proof.
  revert r. induction nodes as [|n nodes IH]; intros r; [reflexivity|].
  etrans; [|apply IH]. frame_solve.
Qed.

Lemma restore_keeps (s : pb.Snapshot.t) : keeps frame_term (restore s).
Proof.
  unfold restore. keeps_go. apply keeps_modify, restoreNode_frame_term.
Qed.
#[global] Hint Resolve restore_keeps : keeps.

Lemma handleSnapshot_keeps (m : pb.Message.t) :
  keeps frame_term (handleSnapshot m).
Proof. unfold handleSnapshot. keeps_go. Qed.
#[global] Hint Resolve handleSnapshot_keeps : keeps.

Lemma removeNode_keeps (p : Z) : keeps frame_term (removeNode p).
Proof. unfold removeNode. keeps_go. Qed.
#[global] Hint Resolve removeNode_keeps : keeps.

Lemma stepLeader_keeps (m : pb.Message.t) : keeps frame_term (stepLeader m).
Proof.
  unfold stepLeader. keeps_go;
    destruct (Progress.maybeDecrTo _ _ _) || destruct (Progress.maybeUpdate _ _)
    || destruct (proposeConfPass _ _ _ _ _); keeps_go.
Qed.
#[global] Hint Resolve stepLeader_keeps : keeps.

Lemma stepCandidate_keeps (m : pb.Message.t) : keeps frame (stepCandidate m).
Proof. unfold stepCandidate. keeps_go. Qed.
#[global] Hint Resolve stepCandidate_keeps : keeps.

Lemma stepFollower_keeps (m : pb.Message.t) : keeps frame_term (stepFollower m).
Proof. unfold stepFollower. keeps_go. Qed.
#[global] Hint Resolve stepFollower_keeps : keeps.

Lemma termGate_keeps (m : pb.Message.t) : keeps frame (termGate m).
Proof. unfold termGate. keeps_go. Qed.
#[global] Hint Resolve termGate_keeps : keeps.

Lemma dispatch_keeps (m : pb.Message.t) : keeps frame (dispatch m).
Proof. unfold dispatch. keeps_go. Qed.
#[global] Hint Resolve dispatch_keeps : keeps.

Lemma Step_keeps (m : pb.Message.t) : keeps frame (Step m).
Proof. unfold Step. keeps_go. Qed.
#[global] Hint Resolve Step_keeps : keeps.

Lemma tickHeartbeat_keeps : keeps frame tickHeartbeat.
Proof. unfold tickHeartbeat. keeps_go. Qed.
#[global] Hint Resolve tickHeartbeat_keeps : keeps.

Lemma tick_keeps : keeps frame tick.
Proof. unfold tick, tickElection. keeps_go. Qed.

(** ** What Step and tick never touch *)

(** X1: a [Step] or a [tick] that returns leaves the node's id, election
    timeout and heartbeat timeout as they were, and the outbox it returns is
    the old outbox with the new messages appended: nothing queued earlier is
    dropped, changed or reordered. *)
Theorem Step_tick_frame (w w' : World) :
  (∃ m e, Step m w = Done (e, w')) ∨ tick w = Done (tt, w') →
  id (node w') = id (node w)
  ∧ electionTimeout (node w') = electionTimeout (node w)
  ∧ heartbeatTimeout (node w') = heartbeatTimeout (node w)
  ∧ ∃ ms, msgs (node w') = msgs (node w) ++ ms.
Proof.
  intros [(m & e & H)|H].
  - destruct (Step_keeps m w e w' H) as (? & ? & ? & ? & _). done.
  - destruct (tick_keeps w tt w' H) as (? & ? & ? & ? & _). done.
Qed.

Lemma Step_e2 :
  Step e2_append (sample_world StateFollower 5) = Done (None, e2_world_after).
Proof. vm_compute. reflexivity. Qed.

Lemma Step_tick_frame_witness :
  id (node e2_world_after) = 1
  ∧ electionTimeout (node e2_world_after) = 10
  ∧ heartbeatTimeout (node e2_world_after) = 1
  ∧ ∃ ms, msgs (node e2_world_after) = [] ++ ms.
Proof.
  apply (Step_tick_frame (sample_world StateFollower 5) e2_world_after).
  left. exists e2_append, None. exact Step_e2.
Defined.

(** X27: the only change of role a returning [Step] or [tick] makes is to
    Follower: the node keeps its role or steps down.  In this code
    becomeCandidate and appendEntry stop at a panic, so no call that
    returns has made the node a candidate or a leader. *)
Theorem Step_tick_role (w w' : World) :
  (∃ m e, Step m w = Done (e, w')) ∨ tick w = Done (tt, w') →
  State (node w') = State (node w) ∨ State (node w') = StateFollower.
Proof.
  intros [(m & e & H)|H].
  - by destruct (Step_keeps m w e w' H) as (_ & _ & _ & _ & ?).
  - by destruct (tick_keeps w tt w' H) as (_ & _ & _ & _ & ?).
Qed.

Lemma Step_tick_role_witness :
  State (node e2_world_after) = StateFollower
  ∨ State (node e2_world_after) = StateFollower.
Proof.
  apply (Step_tick_role (sample_world StateFollower 5) e2_world_after).
  left. exists e2_append, None. exact Step_e2.
Defined.

(** ** The term across Step *)

Lemma becomeFollower_done (w w' : World) (term lead : Z) (u : unit) :
  becomeFollower term lead w = Done (u, w') → 0 < electionTimeout (node w).
Proof.
  destruct (Z.ltb_spec 0 (electionTimeout (node w))) as [?|Hle]; [done|].
  intros H. exfalso. revert H.
  destruct w as [r g]. destruct r, g. cbn [node electionTimeout] in Hle.
  unfold becomeFollower, reset, resetRandomizedElectionTimeout.
  run. unfold Intn. cbn -[Z.modulo wrap_int map_imap reset_progress].
  destruct (Term0 =? term); cbn -[Z.modulo wrap_int map_imap reset_progress];
    (destruct (Z.leb_spec electionTimeout0 0); [intros ?; discriminate|lia]).
Qed.

(** Conclude a relation from a returned computation that keeps it. *)
Ltac by_keeps R :=
  let H := fresh "H" in
  intros H;
  match type of H with
  | ?c ?w = Done (?a, ?w') => refine ((_ : keeps R c) w a w' H); keeps_go
  end.

(** The second switch of [Step] keeps the term, except where a candidate
    yields to a sender it adopts as leader: then the term is the message's. *)
Lemma dispatch_term (w w' : World) (m : pb.Message.t) (e : option error) :
  dispatch m w = Done (e, w') →
  Term (node w') =
    if bool_decide (State (node w) = StateCandidate)
       && adopts_leader (pb.Message.MsgType m)
    then pb.Message.Term m else Term (node w).
Proof.
  unfold dispatch. unfold mbind at 1, M_bind at 1, get at 1. cbn beta iota.
  destruct (State (node w)) eqn:HS.
  - rewrite (bool_decide_eq_false_2 (StateFollower = StateCandidate)) by done.
    cbn [andb].
    intros H. refine (proj2 ((_ : keeps frame_term _) w e w' H)).
    destruct (pb.Message.MsgType m); keeps_go.
  - rewrite (bool_decide_eq_true_2 (StateCandidate = StateCandidate)) by done.
    cbn [andb]. unfold stepCandidate.
    destruct (pb.Message.MsgType m) eqn:Hty; cbn [adopts_leader];
      try (intros H; refine (proj2 ((_ : keeps frame_term _) w e w' H));
           keeps_go; fail).
    all: run;
      destruct (becomeFollower _ _ w) as [[[] w1]| |] eqn:Hbf; [|done..];
      pose proof (becomeFollower_done _ _ _ _ _ Hbf) as Het;
      destruct (becomeFollower_spec w (pb.Message.Term m) (pb.Message.From m) Het)
        as (w1' & Hbf' & _ & HT & _);
      rewrite Hbf in Hbf'; injection Hbf' as <-; rewrite <- HT.
    + destruct (handleAppendEntries m w1) as [[[] w2]| |] eqn:Hh; [|done..].
      intros [= _ <-]. exact (proj2 (handleAppendEntries_keeps m w1 tt w2 Hh)).
    + destruct (handleSnapshot m w1) as [[[] w2]| |] eqn:Hh; [|done..].
      intros [= _ <-]. exact (proj2 (handleSnapshot_keeps m w1 tt w2 Hh)).
    + destruct (handleHeartbeat m w1) as [[[] w2]| |] eqn:Hh; [|done..].
      intros [= _ <-]. exact (proj2 (handleHeartbeat_keeps m w1 tt w2 Hh)).
  - rewrite (bool_decide_eq_false_2 (StateLeader = StateCandidate)) by done.
    cbn [andb].
    intros H. refine (proj2 ((_ : keeps frame_term _) w e w' H)).
    destruct (pb.Message.MsgType m); keeps_go.
Qed.

(** The first switch of [Step] either leaves the world alone or is one
    [becomeFollower] at the message's higher term. *)
Lemma termGate_cases (w w1 : World) (m : pb.Message.t) (b : bool) :
  termGate m w = Done (b, w1) →
  (w1 = w
   ∧ (b = true ↔ ¬ (pb.Message.Term m ≠ 0 ∧ pb.Message.Term m < Term (node w)))
   ∧ ¬ (pb.Message.Term m ≠ 0 ∧ Term (node w) < pb.Message.Term m))
  ∨ (b = true ∧ pb.Message.Term m ≠ 0 ∧ Term (node w) < pb.Message.Term m
     ∧ State (node w1) = StateFollower
     ∧ Term (node w1) = pb.Message.Term m
     ∧ msgs (node w1) = msgs (node w)
     ∧ RaftLog (node w1) = RaftLog (node w)).
Proof.
  unfold termGate. run.
  destruct (Z.eqb_spec (pb.Message.Term m) 0) as [Hz|Hnz].
  { intros [= <- <-]. left.
    split; [done|]. split; [split; [intros _; lia|done]|lia]. }
  destruct (Z.ltb_spec (Term (node w)) (pb.Message.Term m)) as [Hlt|Hge].
  - set (lead := if adopts_leader (pb.Message.MsgType m)
                 then pb.Message.From m else None_id).
    assert (Hsame : (if adopts_leader (pb.Message.MsgType m)
                     then becomeFollower (pb.Message.Term m) (pb.Message.From m)
                     else becomeFollower (pb.Message.Term m) None_id)
                    = becomeFollower (pb.Message.Term m) lead).
    { unfold lead. by destruct (adopts_leader _). }
    rewrite Hsame.
    destruct (becomeFollower _ _ w) as [[[] w2]| |] eqn:Hbf; [|done..].
    intros [= <- <-]. right.
    pose proof (becomeFollower_done _ _ _ _ _ Hbf) as Het.
    destruct (becomeFollower_spec w (pb.Message.Term m) lead Het)
      as (w2' & Hbf' & HS & HT & _ & _ & _ & Hm & Hl & _).
    rewrite Hbf in Hbf'. injection Hbf' as <-. done.
  - destruct (Z.ltb_spec (pb.Message.Term m) (Term (node w))).
    + intros [= <- <-]. left.
      split; [done|]. split; [split; [done|intros Hn; lia]|lia].
    + intros [= <- <-]. left.
      split; [done|]. split; [split; [intros _; lia|done]|lia].
Qed.

(** X2: across a [Step] that returns, the term becomes the larger of the
    node's and the message's term, with one exception the code leaves open:
    a candidate that is handed an AppendEntries, Heartbeat or Snapshot
    carrying term 0 becomes a follower at term 0.  Outside that case the
    term never decreases. *)
Theorem Step_term (w w' : World) (m : pb.Message.t) (e : option error) :
  0 ≤ pb.Message.Term m → 0 ≤ Term (node w) →
  Step m w = Done (e, w') →
  Term (node w') =
    (if (pb.Message.Term m =? 0)
        && bool_decide (State (node w) = StateCandidate)
        && adopts_leader (pb.Message.MsgType m)
     then 0 else Z.max (Term (node w)) (pb.Message.Term m))
  ∧ (¬ (pb.Message.Term m = 0 ∧ State (node w) = StateCandidate
        ∧ adopts_leader (pb.Message.MsgType m) = true) →
     Term (node w) ≤ Term (node w')).
Proof.
  intros Hm0 Hr0 HStep.
  assert (HT : Term (node w') =
    (if (pb.Message.Term m =? 0)
        && bool_decide (State (node w) = StateCandidate)
        && adopts_leader (pb.Message.MsgType m)
     then 0 else Z.max (Term (node w)) (pb.Message.Term m))).
  { revert HStep. unfold Step. run.
    destruct (termGate m w) as [[b w1]| |] eqn:Hg; [|done..].
    apply termGate_cases in Hg as [(-> & Hb & Hnh)|(-> & Hnz & Hlt & HS & HT1 & _)].
    - destruct b.
      + intros Hd. rewrite (dispatch_term _ _ _ _ Hd).
        destruct (Z.eqb_spec (pb.Message.Term m) 0) as [Hz|Hnz]; cbn [andb].
        * rewrite Hz. destruct (_ && _); lia.
        * assert (pb.Message.Term m = Term (node w))
            by (pose proof (proj1 Hb eq_refl); lia).
          destruct (_ && _); lia.
      + intros [= _ <-].
        destruct (Z.eqb_spec (pb.Message.Term m) 0) as [Hz|Hnz]; cbn [andb].
        * exfalso. destruct Hb as [_ Hb]. assert (Hf : false = true) by (apply Hb; lia).
          discriminate.
        * assert (pb.Message.Term m < Term (node w)).
          { destruct (decide (pb.Message.Term m < Term (node w))); [done|].
            destruct Hb as [_ Hb]. assert (Hf : false = true) by (apply Hb; lia).
            discriminate. }
          lia.
    - intros Hd. rewrite (dispatch_term _ _ _ _ Hd), HS, HT1.
      rewrite bool_decide_eq_false_2 by done. cbn [andb].
      destruct (Z.eqb_spec (pb.Message.Term m) 0); [done|]. cbn [andb]. lia. }
  split; [exact HT|].
  intros Hex. rewrite HT.
  destruct (Z.eqb_spec (pb.Message.Term m) 0); cbn [andb]; [|lia].
  case_bool_decide; cbn [andb]; [|lia].
  destruct (adopts_leader _) eqn:Had; [|lia].
  exfalso. by apply Hex.
Qed.

Lemma Step_term_witness :
  Term (node e2_world_after) = Z.max 5 5 ∧ 5 ≤ Term (node e2_world_after).
Proof.
  destruct (Step_term (sample_world StateFollower 5) e2_world_after e2_append
              None ltac:(simpl; lia) ltac:(simpl; lia) Step_e2) as [H1 H2].
  split; [exact H1|]. apply H2. by intros (? & ? & _).
Defined.

(** The exception of [Step_term] does occur: the candidate of the sample
    cluster, at term 5, ends at term 0. *)
Lemma Step_zero_term_append_candidate :
  ∃ w', Step zero_term_append (sample_world StateCandidate 5) = Done (None, w')
    ∧ Term (node w') = 0 ∧ State (node w') = StateFollower.
Proof. eexists. split; [vm_compute; reflexivity|]. by split. Qed.

(** ** Errors returned by Step *)

Lemma yields_ret {A} (P : A → Prop) (a : A) : P a → yields P (mret a).
Proof. by intros Ha w a' w' [= <- _]. Qed.

Lemma yields_panic {A} (P : A → Prop) (s : string) : yields P (panic s).
Proof. by intros w a w'. Qed.

Lemma yields_fatal {A} (P : A → Prop) (s : string) : yields P (fatal s).
Proof. by intros w a w'. Qed.

Lemma yields_bind {A B} (P : B → Prop) (c : M A) (f : A → M B) :
  (∀ a, yields P (f a)) → yields P (c ≫= f).
Proof.
  intros Hf w b w'. unfold mbind, M_bind.
  destruct (c w) as [[a w1]| |]; [|done..]. apply Hf.
Qed.

Ltac yields_go :=
  repeat first
    [ apply yields_panic | apply yields_fatal
    | apply yields_ret; reflexivity
    | apply yields_bind; intros ?
    | match goal with
      | |- yields _ (if ?b then _ else _) => destruct b
      | |- yields _ (match ?x with _ => _ end) => destruct x
      end ].

(** Apart from a proposal, no message makes the second switch return an
    error. *)
Lemma dispatch_yields_nil (m : pb.Message.t) :
  pb.Message.MsgType m ≠ pb.MsgPropose →
  yields (λ e, e = None) (dispatch m).
Proof.
  intros Hty. unfold dispatch, stepFollower, stepCandidate, stepLeader.
  apply yields_bind. intros r.
  destruct (pb.Message.MsgType m); try done; yields_go;
    destruct (Progress.maybeDecrTo _ _ _) || destruct (Progress.maybeUpdate _ _);
    yields_go.
Qed.

Lemma dispatch_proposal (w w' : World) (m : pb.Message.t) (e : error) :
  pb.Message.MsgType m = pb.MsgPropose →
  dispatch m w = Done (Some e, w') →
  e = ErrProposalDropped ∧ w' = w ∧ cannot_accept (node w).
Proof.
  intros Hty. unfold dispatch. run. rewrite Hty.
  destruct (State (node w)) eqn:HS.
  - unfold stepFollower. rewrite Hty. intros [= <- <-].
    repeat split. by left.
  - unfold stepCandidate. rewrite Hty. intros [= <- <-].
    repeat split. right. by left.
  - unfold stepLeader. run. rewrite Hty. rewrite andb_false_r.
    destruct (len (pb.Message.Entries m) =? 0); [done|].
    case_bool_decide as Hin.
    { intros [= <- <-]. repeat split. right. right. auto. }
    destruct (Z.eqb_spec (leadTransferee (node w)) None_id) as [Hlt|Hlt]; simpl.
    + by destruct (proposeConfPass _ _ _ _ _).
    + intros [= <- <-]. repeat split. right. right. auto.
Qed.

(** X3: the only error [Step] ever returns is ErrProposalDropped, and only
    for a proposal, whatever term the message carries.  The node that comes
    back cannot accept proposals, and its log and outbox are those it had:
    a dropped proposal appends nothing and sends nothing. *)
Theorem Step_error_is_dropped_proposal (w w' : World) (m : pb.Message.t)
    (e : error) :
  Step m w = Done (Some e, w') →
  e = ErrProposalDropped
  ∧ pb.Message.MsgType m = pb.MsgPropose
  ∧ cannot_accept (node w')
  ∧ msgs (node w') = msgs (node w)
  ∧ RaftLog (node w') = RaftLog (node w).
Proof.
  unfold Step. run.
  destruct (termGate m w) as [[b w1]| |] eqn:Hg; [|done..].
  destruct b; [|done]. intros Hd.
  destruct (decide (pb.Message.MsgType m = pb.MsgPropose)) as [Hty|Hty].
  - destruct (dispatch_proposal w1 w' m e Hty Hd) as (-> & -> & Hc).
    apply termGate_cases in Hg as [(-> & _)|(_ & _ & _ & _ & _ & Hm & Hl)]; done.
  - by pose proof (dispatch_yields_nil m Hty w1 (Some e) w' Hd).
Qed.

Lemma Step_termed_proposal :
  ∃ w', Step termed_proposal (sample_world StateLeader 5)
        = Done (Some ErrProposalDropped, w').
Proof. eexists. vm_compute. reflexivity. Qed.

Lemma Step_error_witness :
  ∃ w', Step termed_proposal (sample_world StateLeader 5)
        = Done (Some ErrProposalDropped, w')
    ∧ cannot_accept (node w')
    ∧ msgs (node w') = []
    ∧ RaftLog (node w') = sample_log.
Proof.
  destruct Step_termed_proposal as [w' H]. exists w'. split; [exact H|].
  apply (Step_error_is_dropped_proposal (sample_world StateLeader 5) w'
           termed_proposal ErrProposalDropped H).
Defined.

(** ** Progress *)

Lemma maybeUpdate_eq (pr : Progress.t) (n : Z) :
  Progress.maybeUpdate pr n
  = (bool_decide (Progress.Match pr < n),
     Progress.mk (Z.max (Progress.Match pr) n)
       (Z.max (Progress.Next pr) (add64 n 1))).
Proof.
  unfold Progress.maybeUpdate. destruct pr as [mt nx]. cbn [Progress.Match Progress.Next].
  destruct (Z.ltb_spec mt n) as [Hlt|Hge];
    [rewrite bool_decide_eq_true_2 by done|rewrite bool_decide_eq_false_2 by lia];
    cbn [Progress.Match Progress.Next];
    destruct (Z.ltb_spec nx (add64 n 1)); f_equal; f_equal; lia.
Qed.

(** X4: maybeUpdate in closed form: Match becomes max(Match, n) and Next
    becomes max(Next, n+1) with the uint64 sum, for every n, also a stale
    one; so neither field ever decreases, and the call reports true exactly
    when Match moved. *)
Theorem maybeUpdate_closed_form (pr : Progress.t) (n : Z) :
  Progress.maybeUpdate pr n
  = (bool_decide (Progress.Match pr < n),
     Progress.mk (Z.max (Progress.Match pr) n)
       (Z.max (Progress.Next pr) (add64 n 1)))
  ∧ Progress.Match pr ≤ Progress.Match (Progress.maybeUpdate pr n).2
  ∧ Progress.Next pr ≤ Progress.Next (Progress.maybeUpdate pr n).2.
Proof.
  rewrite maybeUpdate_eq. cbn [snd Progress.Match Progress.Next].
  split; [done|lia].
Qed.

(** X5: positive responses can be applied in either order: updating with a
    then b leaves the same progress as b then a. *)
Theorem maybeUpdate_order_independent (pr : Progress.t) (a b : Z) :
  (Progress.maybeUpdate (Progress.maybeUpdate pr a).2 b).2
  = (Progress.maybeUpdate (Progress.maybeUpdate pr b).2 a).2.
Proof.
  rewrite !maybeUpdate_eq. cbn [snd Progress.Match Progress.Next].
  f_equal; lia.
Qed.

(** X6: maybeDecrTo refuses exactly the rejections at or below Match and
    then changes nothing; an accepted one keeps Match and puts Next between
    1 and max(1, rejected), so the next probe is below the rejected index. *)
Theorem maybeDecrTo_outcome (pr : Progress.t) (rejected last : Z) :
  ((Progress.maybeDecrTo pr rejected last).1 = false ↔ rejected ≤ Progress.Match pr)
  ∧ (rejected ≤ Progress.Match pr →
     Progress.maybeDecrTo pr rejected last = (false, pr))
  ∧ (Progress.Match pr < rejected →
     (Progress.maybeDecrTo pr rejected last).1 = true
     ∧ Progress.Match (Progress.maybeDecrTo pr rejected last).2 = Progress.Match pr
     ∧ 1 ≤ Progress.Next (Progress.maybeDecrTo pr rejected last).2 ≤ Z.max 1 rejected).
Proof.
  unfold Progress.maybeDecrTo, Progress.min. destruct pr as [mt nx].
  cbn [Progress.Match Progress.Next].
  destruct (Z.leb_spec rejected mt) as [Hle|Hgt]; cbn [fst snd].
  - split; [done|]. split; [done|lia].
  - split; [split; [done|lia]|]. split; [lia|]. intros _.
    split; [done|]. split; [done|].
    cbn [Progress.Next]. repeat (case_match; simpl in * ); lia.
Qed.

Lemma maybeDecrTo_outcome_witness :
  (Progress.maybeDecrTo (Progress.mk 0 6) 5 2).1 = true
  ∧ Progress.Match (Progress.maybeDecrTo (Progress.mk 0 6) 5 2).2 = 0
  ∧ 1 ≤ Progress.Next (Progress.maybeDecrTo (Progress.mk 0 6) 5 2).2 ≤ Z.max 1 5.
Proof.
  apply (proj2 (proj2 (maybeDecrTo_outcome (Progress.mk 0 6) 5 2))). simpl. lia.
Defined.

(** ** Quorums and votes *)

(** X7: two sets of peers that each reach the quorum of the progress map
    share a peer. *)
Theorem quorum_intersect (r : Raft) (A B : gset Z) :
  A ⊆ dom (Prs r) → B ⊆ dom (Prs r) →
  quorum r ≤ Z.of_nat (size A) → quorum r ≤ Z.of_nat (size B) →
  ∃ p, p ∈ A ∧ p ∈ B.
Proof.
  intros HA HB HqA HqB.
  destruct (set_choose_or_empty (A ∩ B)) as [[p Hp]|Hemp].
  { exists p. set_solver. }
  exfalso.
  assert (Hdisj : A ## B) by set_solver.
  pose proof (size_union A B Hdisj) as Hu.
  assert (Hsub : A ∪ B ⊆ dom (Prs r)) by (by apply union_subseteq).
  apply subseteq_size in Hsub. rewrite size_dom in Hsub.
  unfold quorum in *.
  pose proof (Z.div_mod (Z.of_nat (size (Prs r))) 2) as Hd.
  pose proof (Z.mod_pos_bound (Z.of_nat (size (Prs r))) 2) as Hm.
  lia.
Qed.

Lemma quorum_intersect_witness :
  ∃ p, p ∈ ({[1; 2]} : gset Z) ∧ p ∈ ({[2; 3]} : gset Z).
Proof.
  apply (quorum_intersect (sample_node StateLeader 5) {[1; 2]} {[2; 3]}).
  - apply (bool_decide_unpack _). vm_compute. exact I.
  - apply (bool_decide_unpack _). vm_compute. exact I.
  - vm_compute. discriminate.
  - vm_compute. discriminate.
Defined.

(** X8: poll keeps a voter's first answer.  It records the answer only if
    the voter has none yet, returns the number of granted votes, which lies
    between 0 and the number of recorded voters, and a second poll for the
    same voter, with whatever answer, changes nothing and returns the same
    count. *)
Theorem poll_first_answer_wins (w : World) (p : Z) (t t' : pb.MessageType)
    (v v' : bool) :
  let vs := record_vote p v (votes (node w)) in
  let w1 := mkWorld (set_votes vs (node w)) (globalRand w) in
  (∀ x, votes (node w) !! p = Some x → vs = votes (node w))
  ∧ (votes (node w) !! p = None → vs !! p = Some v)
  ∧ (∀ q, q ≠ p → vs !! q = votes (node w) !! q)
  ∧ 0 ≤ granted vs ≤ Z.of_nat (size vs)
  ∧ poll p t v w = Done (granted vs, w1)
  ∧ poll p t' v' w1 = Done (granted vs, w1).
Proof.
  intros vs w1. subst vs w1. unfold record_vote.
  assert (Hb : 0 ≤ granted (record_vote p v (votes (node w)))
               ≤ Z.of_nat (size (record_vote p v (votes (node w))))).
  { unfold granted, len. rewrite <- length_map_to_list.
    pose proof (length_filter (λ kv : Z * bool, kv.2 = true)
                  (map_to_list (record_vote p v (votes (node w))))). lia. }
  unfold record_vote in Hb.
  destruct w as [r g]. destruct r. cbn [node votes globalRand] in *.
  unfold poll. run. cbn [node votes globalRand set_votes].
  destruct (votes0 !! p) as [x|] eqn:Hp.
  - repeat split; try done; try lia.
    cbn [node votes]. by rewrite Hp.
  - repeat split; try done; try lia.
    + by rewrite lookup_insert_eq.
    + intros q Hq. by rewrite lookup_insert_ne.
    + cbn [node votes set_votes]. by rewrite lookup_insert_eq.
Qed.

(** ** Membership *)

(** X9: addNode is idempotent.  A peer already in the progress map is left
    as it is; a new one enters with match 0 and next = last index + 1, and
    no other peer's progress changes. *)
Theorem addNode_idempotent (r : Raft) (p : Z) :
  addNode p (addNode p r) = addNode p r
  ∧ (is_Some (Prs r !! p) → addNode p r = r)
  ∧ (Prs r !! p = None →
     Prs (addNode p r) !! p
     = Some (Progress.mk 0 (add64 (RaftLog.LastIndex (RaftLog r)) 1)))
  ∧ (∀ q, q ≠ p → Prs (addNode p r) !! q = Prs r !! q)
  ∧ dom (Prs (addNode p r)) = {[p]} ∪ dom (Prs r).
Proof.
  unfold addNode, getProgress.
  destruct (Prs r !! p) as [pr|] eqn:Hp.
  - rewrite Hp. repeat split; try done.
    apply set_eq. intros q. rewrite elem_of_union, elem_of_singleton, !elem_of_dom.
    split; [auto|]. intros [-> |?]; [by rewrite Hp|done].
  - unfold setProgress. cbn [Prs set_Prs].
    rewrite lookup_insert_eq. repeat split; try done.
    all: try (by intros [? ?]); try (by rewrite lookup_insert_eq);
      try (intros q Hq; by rewrite lookup_insert_ne);
      try (by rewrite dom_insert_L).
Qed.

(** ** What the replication handlers leave alone *)

#[global] Instance only_log_msgs_preorder : PreOrder only_log_msgs.
Proof.
  split.
  - intros r. unfold only_log_msgs. by repeat split.
  - intros r1 r2 r3 H1 H2. unfold only_log_msgs in *.
    destruct H1 as (?&?&?&?&?&?&?&?&?&?&?&?&?&?).
    destruct H2 as (?&?&?&?&?&?&?&?&?&?&?&?&?&?).
    repeat split; congruence.
Qed.

Lemma send_only (m : pb.Message.t) : keeps only_log_msgs (send m).
Proof. unfold send. keeps_go. Qed.
#[global] Hint Resolve send_only : keeps.

Lemma sendAppend_only (to : Z) : keeps only_log_msgs (sendAppend to).
Proof. unfold sendAppend. keeps_go. Qed.
#[global] Hint Resolve sendAppend_only : keeps.

Lemma bcastAppend_only : keeps only_log_msgs bcastAppend.
Proof.
  unfold bcastAppend. apply keeps_bind; [apply _|keeps_go|].
  intros r. apply forEachProgress_keeps; [apply _|]. intros p pr. keeps_go.
Qed.
#[global] Hint Resolve bcastAppend_only : keeps.

Lemma maybeCommit_only : keeps only_log_msgs maybeCommit.
Proof. unfold maybeCommit. keeps_go. Qed.
#[global] Hint Resolve maybeCommit_only : keeps.

Lemma handleAppendEntries_only (m : pb.Message.t) :
  keeps only_log_msgs (handleAppendEntries m).
Proof. unfold handleAppendEntries. keeps_go. Qed.

Lemma handleHeartbeat_only (m : pb.Message.t) :
  keeps only_log_msgs (handleHeartbeat m).
Proof. unfold handleHeartbeat. keeps_go. Qed.

(** X10: handleAppendEntries, handleHeartbeat, the node's maybeCommit,
    sendAppend and bcastAppend touch nothing but the log and the outbox:
    role, term, vote, leader, progress map, votes, pending transfer and all
    timers come back as they went in. *)
Theorem replication_touches_only_log_and_outbox (m : pb.Message.t) (to : Z) :
  keeps only_log_msgs (handleAppendEntries m)
  ∧ keeps only_log_msgs (handleHeartbeat m)
  ∧ keeps only_log_msgs maybeCommit
  ∧ keeps only_log_msgs (sendAppend to)
  ∧ keeps only_log_msgs bcastAppend.
Proof.
  split_and!.
  - apply handleAppendEntries_only.
  - apply handleHeartbeat_only.
  - apply maybeCommit_only.
  - apply sendAppend_only.
  - apply bcastAppend_only.
Qed.

(** X11: removeNode deletes the peer from the progress map and nothing else
    of it.  If peers remain and the node is a leader transferring to the
    removed peer, the transfer is aborted; if the map becomes empty the
    method returns at once, pending transfer included.  Role, term, vote
    and leader never change. *)
Theorem removeNode_outcome (w w' : World) (p : Z) :
  removeNode p w = Done (tt, w') →
  Prs (node w') = delete p (Prs (node w))
  ∧ State (node w') = State (node w)
  ∧ Term (node w') = Term (node w)
  ∧ Vote (node w') = Vote (node w)
  ∧ Lead (node w') = Lead (node w)
  ∧ leadTransferee (node w') =
      (if bool_decide (delete p (Prs (node w)) ≠ ∅)
          && bool_decide (State (node w) = StateLeader)
          && (leadTransferee (node w) =? p)
       then None_id else leadTransferee (node w)).
Proof.
  unfold removeNode. run. proj_simpl.
  destruct (Z.eqb_spec (Z.of_nat (size (delete p (Prs (node w))))) 0) as [Hz|Hnz].
  - intros [= <-]. proj_simpl.
    assert (delete p (Prs (node w)) = ∅) as ->
      by (apply map_size_empty_iff; lia).
    rewrite bool_decide_eq_false_2 by (by intros ?). done.
  - assert (Hne : delete p (Prs (node w)) ≠ ∅)
      by (apply map_size_non_empty_iff; lia).
    rewrite (bool_decide_eq_true_2 _ Hne). cbn [andb].
    set (w0 := mkWorld (set_Prs (delete p (Prs (node w))) (node w)) (globalRand w)).
    destruct (maybeCommit w0) as [[changed w1]| |] eqn:Hmc; [|done..].
    pose proof (maybeCommit_only w0 changed w1 Hmc) as H01.
    assert (Hrest : ∀ w2, only_log_msgs (node w1) (node w2) →
      (if bool_decide (State (node w2) = StateLeader)
          && (leadTransferee (node w2) =? p)
       then λ w3, Done (tt, mkWorld (abortLeaderTransfer (node w3)) (globalRand w3))
       else λ w3, Done (tt, w3)) w2 = Done (tt, w') →
      Prs (node w') = delete p (Prs (node w))
      ∧ State (node w') = State (node w)
      ∧ Term (node w') = Term (node w)
      ∧ Vote (node w') = Vote (node w)
      ∧ Lead (node w') = Lead (node w)
      ∧ leadTransferee (node w') =
          (if bool_decide (State (node w) = StateLeader)
              && (leadTransferee (node w) =? p)
           then None_id else leadTransferee (node w))).
    { intros w2 H12.
      assert (H02 : only_log_msgs (node w0) (node w2)) by (by etrans).
      destruct H02 as (_ & HT & HV & HP & HS & _ & HL & _ & _ & _ & HLT & _).
      subst w0. proj_simpl. rewrite HS, HLT.
      destruct (bool_decide (State (node w) = StateLeader)
                && (leadTransferee (node w) =? p)) eqn:Hcond;
        intros [= <-]; proj_simpl; by rewrite ?HP, ?HS, ?HT, ?HV, ?HL, ?HLT. }
    destruct changed.
    + destruct (bcastAppend w1) as [[[] w2]| |] eqn:Hbc; [|done..].
      apply Hrest. exact (bcastAppend_only w1 tt w2 Hbc).
    + apply Hrest. reflexivity.
Qed.

Lemma removeNode_sample :
  removeNode 3 (sample_world StateLeader 5) = Done (tt, sample_without_3).
Proof. vm_compute. reflexivity. Qed.

Lemma removeNode_outcome_witness :
  Prs (node sample_without_3) = delete 3 sample_prs
  ∧ State (node sample_without_3) = StateLeader
  ∧ Term (node sample_without_3) = 5
  ∧ Vote (node sample_without_3) = 0
  ∧ Lead (node sample_without_3) = 0
  ∧ leadTransferee (node sample_without_3) =
      (if bool_decide (delete 3 sample_prs ≠ ∅)
          && bool_decide (StateLeader = StateLeader) && (0 =? 3)
       then None_id else 0).
Proof.
  exact (removeNode_outcome (sample_world StateLeader 5) sample_without_3 3
           removeNode_sample).
Defined.

(** ** Messages the node drops *)



(** X13: a TimeoutNow starts a campaign only at a follower that is in its
    own progress map (where the scaffold's becomeCandidate panics); a
    follower removed from the map, a candidate and a leader drop it without
    any effect. *)
Theorem TimeoutNow_only_at_promotable_follower (w : World) (m : pb.Message.t) :
  pb.Message.MsgType m = pb.MsgTimeoutNow →
  pb.Message.Term m = 0 ∨ pb.Message.Term m = Term (node w) →
  (State (node w) = StateFollower ∧ promotable (node w) = true →
   Step m w = Panic "Raft: Leader_Election_Step3:::Your code here.")
  ∧ (¬ (State (node w) = StateFollower ∧ promotable (node w) = true) →
     Step m w = Done (None, w)).
Proof.
  intros Hty Hterm. rewrite (Step_local_or_same w m Hterm).
  unfold dispatch. run. rewrite Hty.
  destruct (State (node w)) eqn:HS.
  - unfold stepFollower. run. rewrite Hty.
    destruct (promotable (node w)); split; try done.
    + intros H. exfalso. by apply H.
    + by intros [_ ?].
  - unfold stepCandidate. rewrite Hty. split; [by intros [? _]|done].
  - unfold stepLeader, getProgress. run. rewrite Hty.
    split; [by intros [? _]|]. intros _.
    by destruct (Prs (node w) !! pb.Message.From m).
Qed.

Lemma TimeoutNow_witness :
  Step (msg pb.MsgTimeoutNow 2 5) (sample_world StateCandidate 5)
  = Done (None, sample_world StateCandidate 5).
Proof.
  apply (proj2 (TimeoutNow_only_at_promotable_follower
                  (sample_world StateCandidate 5) (msg pb.MsgTimeoutNow 2 5)
                  eq_refl (or_intror eq_refl))).
  by intros [? _].
Defined.

(** ** Leader transfer *)

(** X14: a TransferLeader request at the leader, from a peer it has
    progress for.  A repeated request for the pending target changes
    nothing.  A request naming the leader itself only cancels a pending
    transfer.  A request for another peer whose log has caught up records
    the target, restarts the election clock and sends it a TimeoutNow
    stamped with the leader's id and term. *)
Theorem leader_TransferLeader (w : World) (m : pb.Message.t) (pr : Progress.t) :
  State (node w) = StateLeader →
  pb.Message.MsgType m = pb.MsgTransferLeader →
  pb.Message.Term m = 0 ∨ pb.Message.Term m = Term (node w) →
  Prs (node w) !! pb.Message.From m = Some pr →
  let r := node w in
  let target := pb.Message.From m in
  (leadTransferee r ≠ None_id ∧ leadTransferee r = target →
   Step m w = Done (None, w))
  ∧ (leadTransferee r ≠ target → target = id r →
     Step m w = Done (None, mkWorld (abortLeaderTransfer r) (globalRand w)))
  ∧ (leadTransferee r ≠ target → target ≠ id r →
     Progress.Match pr = RaftLog.LastIndex (RaftLog r) →
     Step m w
     = Done (None,
             mkWorld
               (enqueue
                  (pb.Message.mk pb.MsgTimeoutNow target (id r) (Term r) 0 0
                     [] 0 None false 0)
                  (set_leadTransferee target (set_electionElapsed 0 r)))
               (globalRand w))).
Proof.
  intros HS Hty Hterm Hpr r target. subst r target.
  rewrite (Step_local_or_same w m Hterm).
  unfold dispatch. run. rewrite Hty, HS.
  unfold stepLeader, getProgress. run. rewrite Hpr, Hty. cbn [bool_decide andb].
  rewrite bool_decide_eq_false_2 by done. cbn [andb].
  split_and!.
  - intros [Hnn Heq].
    destruct (Z.eqb_spec (leadTransferee (node w)) None_id); [done|].
    cbn [negb andb]. by rewrite Heq, Z.eqb_refl.
  - intros Hne Hself.
    destruct (Z.eqb_spec (leadTransferee (node w)) (pb.Message.From m)); [done|].
    rewrite andb_false_r.
    destruct (Z.eqb_spec (leadTransferee (node w)) None_id) as [Hn|Hn];
      cbn [negb]; proj_simpl; rewrite Hself, Z.eqb_refl; [|done].
    destruct w as [[] ?]. cbn in *. by rewrite Hn.
  - intros Hne Hother Hmatch.
    destruct (Z.eqb_spec (leadTransferee (node w)) (pb.Message.From m)); [done|].
    rewrite andb_false_r.
    destruct (Z.eqb_spec (pb.Message.From m) (id (node w))); [done|].
    rewrite Hmatch.
    destruct (Z.eqb_spec (leadTransferee (node w)) None_id) as [Hn|Hn];
      cbn [negb]; proj_simpl; rewrite Z.eqb_refl;
      unfold sendTimeoutNow, send; run; cbn; by destruct w as [[] ?].
Qed.

Lemma leader_TransferLeader_witness :
  Step (msg pb.MsgTransferLeader 1 0) (sample_world StateLeader 5)
  = Done (None, mkWorld (abortLeaderTransfer (sample_node StateLeader 5))
                  sample_rand).
Proof.
  refine (proj1 (proj2 (leader_TransferLeader (sample_world StateLeader 5)
            (msg pb.MsgTransferLeader 1 0) (Progress.mk 3 4)
            eq_refl eq_refl (or_introl eq_refl) eq_refl)) _ eq_refl).
  simpl. lia.
Defined.

(** X15: a follower forwards a local TransferLeader (term 0) to the leader
    it knows, readdressed and stamped with its own id and term, and drops
    it when it knows none.  A TransferLeader that already carries the
    follower's term cannot be forwarded: send panics on it. *)
Theorem follower_forwards_TransferLeader (w : World) (m : pb.Message.t) :
  State (node w) = StateFollower →
  pb.Message.MsgType m = pb.MsgTransferLeader →
  let r := node w in
  (pb.Message.Term m = 0 → Lead r = None_id → Step m w = Done (None, w))
  ∧ (pb.Message.Term m = 0 → Lead r ≠ None_id →
     Step m w
     = Done (None,
             mkWorld
               (enqueue (with_Term (Term r) (with_From (id r) (with_To (Lead r) m))) r)
               (globalRand w)))
  ∧ (pb.Message.Term m = Term r → Term r ≠ 0 → Lead r ≠ None_id →
     Step m w = Panic "term should not be set when sending").
Proof.
  intros HS Hty r. subst r. split_and!.
  - intros Hz Hl. rewrite (Step_local_or_same w m (or_introl Hz)).
    unfold dispatch. run. rewrite Hty, HS. unfold stepFollower. run.
    by rewrite Hty, Hl.
  - intros Hz Hl. rewrite (Step_local_or_same w m (or_introl Hz)).
    unfold dispatch. run. rewrite Hty, HS. unfold stepFollower. run.
    rewrite Hty. destruct (Z.eqb_spec (Lead (node w)) None_id); [done|].
    unfold send. run. cbn [with_To with_From pb.Message.MsgType pb.Message.Term].
    rewrite Hty, Hz. done.
  - intros Ht Hnz Hl. rewrite (Step_local_or_same w m (or_intror Ht)).
    unfold dispatch. run. rewrite Hty, HS. unfold stepFollower. run.
    rewrite Hty. destruct (Z.eqb_spec (Lead (node w)) None_id); [done|].
    unfold send. run. cbn [with_To with_From pb.Message.MsgType pb.Message.Term].
    rewrite Hty, Ht. cbn [is_vote_msg].
    by destruct (Z.eqb_spec (Term (node w)) 0).
Qed.

Lemma follower_forwards_witness :
  Step (msg pb.MsgTransferLeader 3 0) follower_of_2
  = Done (None,
          mkWorld
            (enqueue (with_Term 5 (with_From 1 (with_To 2 (msg pb.MsgTransferLeader 3 0))))
               (node follower_of_2))
            sample_rand).
Proof.
  refine (proj1 (proj2 (follower_forwards_TransferLeader follower_of_2
            (msg pb.MsgTransferLeader 3 0) eq_refl eq_refl)) eq_refl _).
  by vm_compute.
Defined.

(** ** Followers and candidates under a leader's messages *)





(** ** The leader's clock *)

(** X18: a leader tick on which no heartbeat is due advances both clocks by
    one and sends nothing; when the election clock reaches the election
    timeout it is set back to 0 and a pending leader transfer is aborted. *)
Theorem leader_tick_without_beat (w : World) :
  State (node w) = StateLeader →
  wrap_int (heartbeatElapsed (node w) + 1) < heartbeatTimeout (node w) →
  let ee := wrap_int (electionElapsed (node w) + 1) in
  let due := electionTimeout (node w) <=? ee in
  ∃ w', tick w = Done (tt, w')
    ∧ heartbeatElapsed (node w') = wrap_int (heartbeatElapsed (node w) + 1)
    ∧ electionElapsed (node w') = (if due then 0 else ee)
    ∧ leadTransferee (node w') = (if due then None_id else leadTransferee (node w))
    ∧ msgs (node w') = msgs (node w)
    ∧ State (node w') = StateLeader
    ∧ Term (node w') = Term (node w)
    ∧ Prs (node w') = Prs (node w)
    ∧ RaftLog (node w') = RaftLog (node w)
    ∧ globalRand w' = globalRand w.
Proof.
  intros HS Hhb ee due. subst ee due.
  destruct w as [r g]. destruct r. cbn [node State heartbeatElapsed
    heartbeatTimeout electionElapsed electionTimeout] in *. subst.
  assert (HL1 : bool_decide (StateLeader = StateLeader) = true)
    by (by apply bool_decide_eq_true_2).
  assert (HL2 : bool_decide (StateLeader ≠ StateLeader) = false)
    by (apply bool_decide_eq_false_2; by intros ?).
  unfold tick, tickHeartbeat. run. proj_simpl.
  destruct (Z.leb_spec electionTimeout0 (wrap_int (electionElapsed0 + 1)));
    proj_simpl; rewrite ?HL1, ?HL2; cbn [andb].
  - destruct (Z.eqb_spec leadTransferee0 None_id) as [-> |Hn];
      cbn [negb]; proj_simpl; rewrite ?HL1, ?HL2;
      (destruct (Z.leb_spec heartbeatTimeout0 (wrap_int (heartbeatElapsed0 + 1)));
       [lia|]); eexists; (split; [reflexivity|]); by proj_simpl.
  - destruct (Z.leb_spec heartbeatTimeout0 (wrap_int (heartbeatElapsed0 + 1)));
      [lia|]. eexists. split; [reflexivity|]. by proj_simpl.
Qed.

Lemma leader_tick_witness :
  ∃ w', tick transferring_leader = Done (tt, w')
    ∧ heartbeatElapsed (node w') = wrap_int (0 + 1)
    ∧ electionElapsed (node w') = (if 10 <=? wrap_int (9 + 1) then 0 else wrap_int (9 + 1))
    ∧ leadTransferee (node w') = (if 10 <=? wrap_int (9 + 1) then None_id else 2)
    ∧ msgs (node w') = []
    ∧ State (node w') = StateLeader
    ∧ Term (node w') = 5
    ∧ Prs (node w') = sample_prs
    ∧ RaftLog (node w') = sample_log
    ∧ globalRand w' = sample_rand.
Proof.
  apply (leader_tick_without_beat transferring_leader); [reflexivity|].
  vm_compute. reflexivity.
Defined.

(** ** Configuration changes in a proposal *)

(** X19: numOfPendingConf counts the ConfChange entries: it is additive
    over concatenation, lies between 0 and the number of entries, and is 0
    exactly when no entry is a ConfChange. *)
Theorem numOfPendingConf_counts (a b : list pb.Entry.t) :
  numOfPendingConf (a ++ b) = numOfPendingConf a + numOfPendingConf b
  ∧ 0 ≤ numOfPendingConf a ≤ len a
  ∧ (numOfPendingConf a = 0
     ↔ ∀ e, e ∈ a → pb.Entry.EntryType e ≠ pb.EntryConfChange).
Proof.
  unfold numOfPendingConf, len. split_and!.
  - rewrite filter_app, length_app. lia.
  - lia.
  - pose proof (length_filter (λ e, pb.Entry.EntryType e = pb.EntryConfChange) a).
    lia.
  - split.
    + intros Hz e Hin He.
      assert (Hf : e ∈ filter (λ e, pb.Entry.EntryType e = pb.EntryConfChange) a)
        by (by apply list_elem_of_filter).
      destruct (filter _ a); [by apply elem_of_nil in Hf|]. simpl in Hz. lia.
    + intros Hall.
      rewrite (filter_none (λ e, pb.Entry.EntryType e = pb.EntryConfChange) a);
        [done|]. by apply Forall_forall.
Qed.




(** ** Resets and construction *)

Lemma wrap_int_small (z : Z) : - 2 ^ 63 ≤ z < 2 ^ 63 → wrap_int z = z.
Proof.
  intros H. unfold wrap_int, two64. rewrite Z.mod_small; lia.
Qed.

(** X21: every becomeFollower of a node with an election timeout in
    (0, 2^62) re-draws the randomized election timeout inside
    [electionTimeout, 2 * electionTimeout - 1], consuming exactly one draw
    of the shared source; both clocks and PendingConfIndex are 0 afterwards
    and the progress map has the same peers. *)
Theorem becomeFollower_redraws_timeout (w : World) (term lead : Z) :
  0 < electionTimeout (node w) < 2 ^ 62 →
  ∃ w', becomeFollower term lead w = Done (tt, w')
    ∧ electionTimeout (node w) ≤ randomizedElectionTimeout (node w')
        ≤ 2 * electionTimeout (node w) - 1
    ∧ drawn (globalRand w') = S (drawn (globalRand w))
    ∧ draws (globalRand w') = draws (globalRand w)
    ∧ electionElapsed (node w') = 0
    ∧ heartbeatElapsed (node w') = 0
    ∧ PendingConfIndex (node w') = 0
    ∧ dom (Prs (node w')) = dom (Prs (node w)).
Proof.
  destruct w as [r g]. destruct r, g. cbn [node electionTimeout globalRand
    drawn draws Prs].
  intros Het. unfold becomeFollower, reset, resetRandomizedElectionTimeout.
  run. unfold Intn. cbn -[Z.modulo wrap_int map_imap reset_progress].
  pose proof (Z.mod_pos_bound (draws0 drawn0) electionTimeout0 ltac:(lia)) as Hmod.
  destruct (Term0 =? term);
    cbn -[Z.modulo wrap_int map_imap reset_progress];
    (destruct (Z.leb_spec electionTimeout0 0) as [?|_]; [lia|]);
    (eexists; split; [reflexivity|]);
    cbn -[Z.modulo wrap_int map_imap reset_progress];
    rewrite wrap_int_small by lia;
    (split_and!; try done; try lia;
     apply set_eq; intros q; rewrite !elem_of_dom, map_lookup_imap;
     destruct (Prs0 !! q); cbn; split; intros [? ?]; eauto; done).
Qed.

Lemma becomeFollower_redraws_witness :
  ∃ w', becomeFollower 7 2 (sample_world StateCandidate 5) = Done (tt, w')
    ∧ 10 ≤ randomizedElectionTimeout (node w') ≤ 2 * 10 - 1
    ∧ drawn (globalRand w') = 1%nat
    ∧ draws (globalRand w') = draws sample_rand
    ∧ electionElapsed (node w') = 0
    ∧ heartbeatElapsed (node w') = 0
    ∧ PendingConfIndex (node w') = 0
    ∧ dom (Prs (node w')) = dom sample_prs.
Proof.
  apply (becomeFollower_redraws_timeout (sample_world StateCandidate 5) 7 2).
  simpl. lia.
Defined.

(** X22: loadState and hardState are inverse to each other: a hard state
    whose commit index lies between the log's commit index and its last
    index is loaded so that hardState returns exactly it, with the entries,
    the progress map and the outbox untouched; any other commit index is
    fatal. *)
Theorem loadState_hardState_roundtrip (w : World) (hs : pb.HardState.t) :
  let l := RaftLog (node w) in
  (RaftLog.committed l ≤ pb.HardState.Commit hs ≤ RaftLog.LastIndex l →
   ∃ w', loadState hs w = Done (tt, w')
     ∧ hardState (node w') = hs
     ∧ RaftLog.entries (RaftLog (node w')) = RaftLog.entries l
     ∧ Prs (node w') = Prs (node w)
     ∧ msgs (node w') = msgs (node w)
     ∧ State (node w') = State (node w))
  ∧ (¬ RaftLog.committed l ≤ pb.HardState.Commit hs ≤ RaftLog.LastIndex l →
     loadState hs w = Fatal "state.commit is out of range").
Proof.
  intros l. subst l. unfold loadState. run.
  destruct (Z.ltb_spec (pb.HardState.Commit hs)
              (RaftLog.committed (RaftLog (node w))));
    destruct (Z.ltb_spec (RaftLog.LastIndex (RaftLog (node w)))
                (pb.HardState.Commit hs)); cbn [orb]; split; try lia; try done.
  intros _. eexists. split; [reflexivity|].
  unfold hardState. proj_simpl. by destruct hs.
Qed.

Lemma loadState_hardState_witness :
  ∃ w', loadState (pb.HardState.mk 6 2 3) (sample_world StateFollower 5)
        = Done (tt, w')
    ∧ hardState (node w') = pb.HardState.mk 6 2 3
    ∧ RaftLog.entries (RaftLog (node w')) = RaftLog.entries sample_log
    ∧ Prs (node w') = sample_prs
    ∧ msgs (node w') = []
    ∧ State (node w') = StateFollower.
Proof.
  apply (proj1 (loadState_hardState_roundtrip (sample_world StateFollower 5)
                  (pb.HardState.mk 6 2 3))).
  vm_compute. split; discriminate.
Defined.

Lemma foldl_insert_lookup (x : Progress.t) (ps : list Z)
    (m : gmap Z Progress.t) (p : Z) :
  is_Some (foldl (λ prs q, <[q := x]> prs) m ps !! p)
  ↔ p ∈ ps ∨ is_Some (m !! p).
Proof.
  revert m. induction ps as [|q ps IH]; intros m; cbn [foldl].
  - split; [auto|]. intros [H|H]; [by apply elem_of_nil in H|done].
  - rewrite IH, elem_of_cons. destruct (decide (p = q)) as [-> |Hne].
    + rewrite lookup_insert_eq. split; [intros _; by left; left|eauto].
    + rewrite lookup_insert_ne by done.
      split; [intros [?|?]; [left; by right|by right]|].
      intros [[?|?]|?]; [done|by left|by right].
Qed.

(** X23: what newRaft returns, when it returns: the configuration passed
    validate, the node is a follower with no leader and an empty outbox,
    carries the configured id and a positive election timeout, has term,
    vote and commit index of a non-empty stored hard state (term and vote 0
    for an empty one), and has progress for exactly the peers of the stored
    conf state or, when that is empty, of the configuration. *)
Theorem newRaft_result (c : Config) (g : lockedRand) (w : World) :
  newRaft c g = Done w →
  ∃ st hs cs,
    Storage c = Some st
    ∧ Storage.InitialState st = Ok (hs, cs)
    ∧ validate c = None
    ∧ State (node w) = StateFollower
    ∧ Lead (node w) = None_id
    ∧ msgs (node w) = []
    ∧ id (node w) = ID c
    ∧ 0 < electionTimeout (node w)
    ∧ (IsEmptyHardState hs = false → hardState (node w) = hs)
    ∧ (IsEmptyHardState hs = true → Term (node w) = 0 ∧ Vote (node w) = 0)
    ∧ (∀ p, is_Some (Prs (node w) !! p) ↔ p ∈ initial_peers c cs).
Proof.
  intros Hnew.
  pose proof (newRaft_electionTimeout_pos c g w Hnew) as Het.
  destruct (newRaft_spec c g w Hnew)
    as (st & hs & cs & Hst & Hinit & HS & HL & Hm & Hid & HT & HV & He & Ho
          & Hc & HP).
  exists st, hs, cs. split_and!; try done.
  - destruct (validate c) eqn:Hval; [|done].
    unfold newRaft in Hnew. by rewrite Hval in Hnew.
  - intros Hne. unfold hardState. rewrite HT, HV, Hc, Hne. by destruct hs.
  - intros Hemp. by rewrite HT, HV, Hemp.
  - intros p. rewrite HP, map_lookup_imap.
    pose proof (foldl_insert_lookup (Progress.mk 0 1) (initial_peers c cs) ∅ p)
      as Hf.
    rewrite lookup_empty in Hf.
    destruct (foldl _ ∅ (initial_peers c cs) !! p) eqn:Hp; cbn.
    + split; [|eauto]. intros _.
      destruct (proj1 Hf) as [?|[? ?]]; [eauto|done|done].
    + split; [by intros [? ?]|]. intros H.
      destruct (proj2 Hf (or_introl H)) as [? ?]. done.
Qed.

Lemma newRaft_single_returns :
  ∃ w, newRaft (single_config 1 10 1) sample_rand = Done w.
Proof. eexists. vm_compute. reflexivity. Qed.

Lemma newRaft_result_witness :
  ∃ w, newRaft (single_config 1 10 1) sample_rand = Done w
    ∧ ∃ st hs cs,
        Storage (single_config 1 10 1) = Some st
        ∧ Storage.InitialState st = Ok (hs, cs)
        ∧ validate (single_config 1 10 1) = None
        ∧ State (node w) = StateFollower
        ∧ Lead (node w) = None_id
        ∧ msgs (node w) = []
        ∧ id (node w) = 1
        ∧ 0 < electionTimeout (node w)
        ∧ (IsEmptyHardState hs = false → hardState (node w) = hs)
        ∧ (IsEmptyHardState hs = true → Term (node w) = 0 ∧ Vote (node w) = 0)
        ∧ (∀ p, is_Some (Prs (node w) !! p)
                ↔ p ∈ initial_peers (single_config 1 10 1) cs).
Proof.
  destruct newRaft_single_returns as [w H]. exists w. split; [exact H|].
  exact (newRaft_result (single_config 1 10 1) sample_rand w H).
Defined.

(** X24: validate accepts exactly the configurations with a non-zero id, a
    positive heartbeat tick, a larger election tick and a storage; newRaft
    panics with validate's message on every other one, and panics as well
    when both the configuration and the stored conf state name peers. *)
Theorem newRaft_rejects (c : Config) (g : lockedRand) :
  (validate c = None
   ↔ ID c ≠ None_id ∧ 0 < HeartbeatTick c < ElectionTick c ∧ is_Some (Storage c))
  ∧ (∀ e, validate c = Some e → newRaft c g = Panic e)
  ∧ (∀ st hs cs,
       validate c = None → Storage c = Some st →
       Storage.InitialState st = Ok (hs, cs) →
       pb.ConfState.Nodes cs ≠ [] → peers c ≠ [] →
       newRaft c g
       = Panic "cannot specify both newRaft (peers) and ConfState.(Nodes)").
Proof.
  split_and!.
  - split; [apply validate_ticks|].
    intros (Hid & Hticks & [st Hst]). unfold validate.
    destruct (Z.eqb_spec (ID c) None_id); [done|].
    destruct (Z.leb_spec (HeartbeatTick c) 0); [lia|].
    destruct (Z.leb_spec (ElectionTick c) (HeartbeatTick c)); [lia|].
    by rewrite Hst.
  - intros e He. unfold newRaft. by rewrite He.
  - intros st hs cs Hval Hst Hinit Hn Hp. unfold newRaft.
    rewrite Hval, Hst, Hinit.
    assert (Hl : ∀ l : list Z, l ≠ [] → (0 <? len l) = true).
    { intros [|x l] Hl; [done|]. apply Z.ltb_lt. unfold len. simpl. lia. }
    by rewrite (Hl _ Hn), (Hl _ Hp).
Qed.

Lemma newRaft_rejects_witness :
  newRaft double_peers_config sample_rand
  = Panic "cannot specify both newRaft (peers) and ConfState.(Nodes)".
Proof.
  apply (proj2 (proj2 (newRaft_rejects double_peers_config sample_rand))
           storage_with_nodes (pb.HardState.mk 0 0 0) (pb.ConfState.mk [1; 2]));
    done.
Defined.

(** ** Outgoing messages *)

(** X25: whatever send queues is the given message with the sender set to
    the node's id and the addressee and payload unchanged.  A vote request
    or vote response keeps the non-zero term it was given; a proposal keeps
    term 0; every other kind is stamped with the node's term.  Nothing else
    of the node changes. *)
Theorem send_stamps (w w' : World) (m : pb.Message.t) :
  send m w = Done (tt, w') →
  ∃ m', node w' = enqueue m' (node w)
    ∧ globalRand w' = globalRand w
    ∧ with_Term 0 m' = with_Term 0 (with_From (id (node w)) m)
    ∧ (is_vote_msg (pb.Message.MsgType m) = true →
       pb.Message.Term m' = pb.Message.Term m ∧ pb.Message.Term m ≠ 0)
    ∧ (pb.Message.MsgType m = pb.MsgPropose → pb.Message.Term m' = 0)
    ∧ (is_vote_msg (pb.Message.MsgType m) = false →
       pb.Message.MsgType m ≠ pb.MsgPropose →
       pb.Message.Term m = 0 ∧ pb.Message.Term m' = Term (node w)).
Proof.
  unfold send. run. cbn [with_From pb.Message.MsgType pb.Message.Term].
  destruct (is_vote_msg (pb.Message.MsgType m)) eqn:Hv.
  - destruct (Z.eqb_spec (pb.Message.Term m) 0) as [Hz|Hnz]; [done|].
    intros [= <-]. eexists. split; [reflexivity|]. split_and!; try done.
    intros Hp. rewrite Hp in Hv. done.
  - destruct (Z.eqb_spec (pb.Message.Term m) 0) as [Hz|Hnz]; [|done].
    cbn [negb]. case_bool_decide as Hp.
    + intros [= <-]. eexists. split; [reflexivity|]. split_and!; try done.
    + intros [= <-]. eexists. split; [reflexivity|]. split_and!; try done.
Qed.

Lemma send_stamps_witness :
  ∃ m', replied 2 3 false 0 (sample_node StateFollower 5)
        = enqueue m' (sample_node StateFollower 5)
    ∧ sample_rand = sample_rand
    ∧ with_Term 0 m' = with_Term 0 (with_From 1 (appendResponse 2 3 false 0))
    ∧ (false = true → pb.Message.Term m' = 0 ∧ 0 ≠ 0)
    ∧ (pb.MsgAppendResponse = pb.MsgPropose → pb.Message.Term m' = 0)
    ∧ (false = false → pb.MsgAppendResponse ≠ pb.MsgPropose →
       0 = 0 ∧ pb.Message.Term m' = 5).
Proof.
  exact (send_stamps (sample_world StateFollower 5)
           (mkWorld (replied 2 3 false 0 (sample_node StateFollower 5)) sample_rand)
           (appendResponse 2 3 false 0) eq_refl).
Defined.

(** ** The quorum index under progress updates *)

Lemma match_column_split (r : Raft) (p : Z) (pr : Progress.t) :
  Prs r !! p = Some pr →
  match_column r
  ≡ₚ Progress.Match pr
     :: (Progress.Match <$> (map_to_list (delete p (Prs r))).*2).
Proof.
  intros Hp. unfold match_column.
  rewrite <- (insert_delete_id (Prs r) p pr Hp) at 1.
  by rewrite map_to_list_insert by apply lookup_delete_eq.
Qed.

Lemma replicated_on_split (r : Raft) (p : Z) (pr : Progress.t) (i : Z) :
  Prs r !! p = Some pr →
  replicated_on r i
  = (if bool_decide (i ≤ Progress.Match pr) then 1 else 0)
    + len (filter (λ x, i ≤ x)
             (Progress.Match <$> (map_to_list (delete p (Prs r))).*2)).
Proof.
  intros Hp. unfold replicated_on, len.
  rewrite (Permutation_length
             (filter_Permutation (λ x, i ≤ x) _ _ (match_column_split r p pr Hp))).
  rewrite filter_cons. case_bool_decide.
  - rewrite decide_True by done. simpl. lia.
  - rewrite decide_False by done. lia.
Qed.

(** X26: applying a positive response to a peer's progress never lowers
    the index maybeCommit would hand to the log: the Q-th highest match
    after maybeUpdate is at least the one before. *)
Theorem quorum_index_monotone (r : Raft) (p : Z) (pr : Progress.t)
    (n mci mci' : Z) :
  Prs r !! p = Some pr →
  qth_highest r = Some mci →
  qth_highest (set_progress_of p (Progress.maybeUpdate pr n).2 r) = Some mci' →
  mci ≤ mci'.
Proof.
  intros Hp Hq Hq'.
  set (pr' := (Progress.maybeUpdate pr n).2) in *.
  set (r' := set_progress_of p pr' r) in *.
  assert (Hle : Progress.Match pr ≤ Progress.Match pr').
  { unfold pr', Progress.maybeUpdate. destruct pr as [mt nx]. simpl.
    repeat (case_match; simpl in * ); lia. }
  assert (Hp' : Prs r' !! p = Some pr').
  { unfold r', set_progress_of. cbn. apply lookup_insert_eq. }
  assert (Hdel : delete p (Prs r') = delete p (Prs r)).
  { unfold r', set_progress_of. cbn. apply delete_insert_eq. }
  assert (Hquo : quorum r' = quorum r).
  { unfold quorum, r', set_progress_of. cbn.
    by rewrite (map_size_insert_Some p pr' (Prs r)). }
  assert (Hne : Prs r ≠ ∅).
  { intros He. rewrite He in Hp. by rewrite lookup_empty in Hp. }
  assert (Hne' : Prs r' ≠ ∅).
  { intros He. rewrite He in Hp'. by rewrite lookup_empty in Hp'. }
  destruct (mci_is_quorum_index r Hne) as (m0 & _ & Hq0 & Hreach & _).
  destruct (mci_is_quorum_index r' Hne') as (m1 & _ & Hq1 & _ & Hmax).
  rewrite Hq in Hq0. injection Hq0 as <-.
  rewrite Hq' in Hq1. injection Hq1 as <-.
  apply Hmax. unfold quorum_reached in *. rewrite Hquo.
  rewrite (replicated_on_split r p pr mci Hp) in Hreach.
  rewrite (replicated_on_split r' p pr' mci Hp'), Hdel.
  repeat case_bool_decide; lia.
Qed.

Lemma quorum_index_monotone_witness : 2 ≤ 3.
Proof.
  apply (quorum_index_monotone (sample_node StateLeader 5) 2 (Progress.mk 2 3)
           3 2 3); vm_compute; reflexivity.
Defined.
